(** * school_checkin: a shallow embedding of the credential life-cycle,
    the QR polling loop, the check-in payload, the scheduler and the
    notifier, with the properties the specification states about them.

  Conventions of the embedding.
  - A JavaScript string is a [string] (a sequence of bytes).
  - A timestamp ([Date.now()], [expire]) is an integer number of
    milliseconds, a [Z].
  - [null] / [undefined] in a field typed [T | null] is [None].
  - A function that can throw returns a [result]; [try]/[catch] is
    [try_catch].
  - What the outside world answers (the cache, the identity provider, the
    mail transport, the cron library) is an explicit argument. *)

From Stdlib Require Import ZArith NArith String Ascii List Bool Lia.
From Stdlib Require Import Decimal DecimalFacts DecimalString DecimalPos DecimalN.
From stdpp Require Import base gmap strings list.

Local Open Scope string_scope.
Local Open Scope Z_scope.

(** ** JavaScript values and control flow *)

Module Js.

(** The error classes of [types/index.ts].  [Native] stands for an error
    that is not an [AppError] ([TypeError], [SyntaxError], an error of a
    library). *)
Inductive error : Type :=
| AppError (message code : string)
| ValidationError (message : string)
| AuthenticationError (message : string)
| NetworkError (message : string)
| RedisError (message : string)
| Native (message : string).

(** [error instanceof AppError] *)
Definition instanceof_AppError (e : error) : bool :=
  match e with
  | Native _ => false
  | _ => true
  end.


Inductive result (A : Type) : Type :=
| Ok (a : A)
| Throw (e : error).
Arguments Ok {A} a.
Arguments Throw {A} e.

Definition bind {A B} (r : result A) (k : A -> result B) : result B :=
  match r with
  | Ok a => k a
  | Throw e => Throw e
  end.

(** [try { body } catch (error) { handler(error) }] *)
Definition try_catch {A} (body : result A) (handler : error -> result A)
  : result A :=
  match body with
  | Ok a => Ok a
  | Throw e => handler e
  end.


(** Truthiness of a [string | null]: [null] and the empty string are
    falsy. *)
Definition truthy_string (v : option string) : bool :=
  match v with
  | Some s => negb (String.eqb s "")
  | None => false
  end.

(** Truthiness of a [number | null] holding an integer: [null] and [0]
    are falsy. *)
Definition truthy_number (v : option Z) : bool :=
  match v with
  | Some z => negb (z =? 0)
  | None => false
  end.

(** White space that [String.prototype.trim] strips, among the bytes
    below 128: TAB, LF, VT, FF, CR and SPACE. *)
Definition is_space (c : ascii) : bool :=
  let n := nat_of_ascii c in
  ((9 <=? n)%nat && (n <=? 13)%nat) || (n =? 32)%nat.

Fixpoint trim_start (s : string) : string :=
  match s with
  | String c s' => if is_space c then trim_start s' else s
  | EmptyString => EmptyString
  end.

(** Strips trailing white space: a space is dropped when all that follows
    it has been dropped. *)
Fixpoint trim_end (s : string) : string :=
  match s with
  | String c s' =>
      match trim_end s' with
      | EmptyString => if is_space c then EmptyString else String c EmptyString
      | t => String c t
      end
  | EmptyString => EmptyString
  end.

(** [s.trim()] *)
Definition trim (s : string) : string := trim_end (trim_start s).

(** [s] without the prefix [p], when it starts with it. *)
Fixpoint strip_prefix (p s : string) : option string :=
  match p, s with
  | EmptyString, _ => Some s
  | String a p', String b s' => if Ascii.eqb a b then strip_prefix p' s' else None
  | String _ _, EmptyString => None
  end.

(** [!s || s.trim().length === 0] *)
Definition blank (s : string) : bool :=
  String.eqb s "" || (String.length (trim s) =? 0)%nat.

End Js.

#[global] Instance result_ret : MRet Js.result := @Js.Ok.
#[global] Instance result_bind : MBind Js.result := fun A B k r => Js.bind r k.

(** ** JSON text: [JSON.stringify] and [JSON.parse]

    The two built-ins, over byte strings and integer numbers.  [JSON.parse]
    accepts the whole JSON grammar (white space, literals, numbers, strings
    with escapes, arrays, objects) and fails where the built-in throws
    [SyntaxError]. *)

Module Json.

#[local] Set Warnings "-register-all".

Inductive json : Type :=
| JNull
| JBool (b : bool)
| JNum (z : Z)              (* a number written as an integer *)
| JReal (literal : string)  (* a number written with a fraction or an
                               exponent, kept as written *)
| JStr (s : string)
| JArr (items : list json)
| JObj (members : list (string * json)).

Definition ascii_of_code (n : N) : ascii := ascii_of_N n.
Definition code_of_ascii (c : ascii) : N := N_of_ascii c.

Definition is_digit (c : ascii) : bool :=
  ((48 <=? code_of_ascii c) && (code_of_ascii c <=? 57))%N.

(** The double quote. *)
Definition dquote : ascii := "034"%char.

(** The text [s] between double quotes, as it stands. *)
Definition quoted (s : string) : string :=
  String dquote (s ++ String dquote EmptyString).

(** *** Writing *)

(** Lower-case hexadecimal digit of a value below 16. *)
Definition hex_digit (n : N) : ascii :=
  if (n <? 10)%N then ascii_of_code (48 + n) else ascii_of_code (87 + n).

(** One character of a quoted string ([QuoteJSONString]). *)
Definition quote_char (c : ascii) : string :=
  let n := code_of_ascii c in
  if (n =? 34)%N then String "\" (String dquote "")
  else if (n =? 92)%N then "\\"
  else if (n =? 8)%N then "\b"
  else if (n =? 9)%N then "\t"
  else if (n =? 10)%N then "\n"
  else if (n =? 12)%N then "\f"
  else if (n =? 13)%N then "\r"
  else if (n <? 32)%N then
    String "\" (String "u" (String "0" (String "0"
      (String (hex_digit (n / 16)) (String (hex_digit (n mod 16)) "")))))
  else String c "".

Fixpoint quote_chars (s : string) : string :=
  match s with
  | EmptyString => EmptyString
  | String c s' => quote_char c ++ quote_chars s'
  end.

(** [JSON.stringify(s)] for a string [s]. *)
Definition quote (s : string) : string :=
  String dquote (quote_chars s ++ String dquote "").

(** Decimal digits of a natural number, without leading zeros. *)
Definition digits (n : N) : string :=
  NilEmpty.string_of_uint (N.to_uint n).

(** [JSON.stringify(z)] for an integer [z]. *)
Definition integer_to_string (z : Z) : string :=
  if z <? 0 then String "-" (digits (Z.abs_N z)) else digits (Z.abs_N z).

(** [JSON.stringify(v)], without indentation. *)
Fixpoint stringify (v : json) : string :=
  match v with
  | JNull => "null"
  | JBool true => "true"
  | JBool false => "false"
  | JNum z => integer_to_string z
  | JReal literal => literal
  | JStr s => quote s
  | JArr items =>
      let fix elements (vs : list json) : string :=
        match vs with
        | [] => EmptyString
        | [v] => stringify v
        | v :: vs' => stringify v ++ "," ++ elements vs'
        end in
      "[" ++ elements items ++ "]"
  | JObj members =>
      let fix fields (ms : list (string * json)) : string :=
        match ms with
        | [] => EmptyString
        | [(k, v)] => quote k ++ ":" ++ stringify v
        | (k, v) :: ms' => quote k ++ ":" ++ stringify v ++ "," ++ fields ms'
        end in
      "{" ++ fields members ++ "}"
  end.

(** *** Reading *)

Definition is_ws (c : ascii) : bool :=
  let n := code_of_ascii c in
  ((n =? 32) || (n =? 9) || (n =? 10) || (n =? 13))%N.

Fixpoint skip_ws (s : string) : string :=
  match s with
  | String c s' => if is_ws c then skip_ws s' else s
  | EmptyString => EmptyString
  end.

(** Value of a hexadecimal digit. *)
Definition hex_value (c : ascii) : option N :=
  let n := code_of_ascii c in
  if ((48 <=? n) && (n <=? 57))%N then Some (n - 48)%N
  else if ((97 <=? n) && (n <=? 102))%N then Some (n - 87)%N
  else if ((65 <=? n) && (n <=? 70))%N then Some (n - 55)%N
  else None.

(** The bytes (UTF-8) of the code unit a [\uXXXX] escape denotes. *)
Definition utf8 (u : N) : string :=
  if (u <? 128)%N then String (ascii_of_code u) ""
  else if (u <? 2048)%N then
    String (ascii_of_code (192 + u / 64))
      (String (ascii_of_code (128 + u mod 64)) "")
  else
    String (ascii_of_code (224 + u / 4096))
      (String (ascii_of_code (128 + (u / 64) mod 64))
         (String (ascii_of_code (128 + u mod 64)) "")).

(** Where the scanner of a string literal stands: in plain text, after a
    backslash, or inside the four digits of [\uXXXX]. *)
Inductive string_mode : Type :=
| Plain
| Escaped
| Hex (todo : nat) (acc : N).

(** Reads the characters of a string literal up to its closing quote;
    returns the text denoted and what follows the quote. *)
Fixpoint parse_chars (m : string_mode) (s : string) : option (string * string) :=
  match s with
  | EmptyString => None
  | String c r =>
      let n := code_of_ascii c in
      match m with
      | Plain =>
          if (n =? 34)%N then Some (EmptyString, r)
          else if (n =? 92)%N then parse_chars Escaped r
          else if (n <? 32)%N then None
          else
            match parse_chars Plain r with
            | Some (t, rest) => Some (String c t, rest)
            | None => None
            end
      | Escaped =>
          if (n =? 117)%N then parse_chars (Hex 4 0%N) r
          else
            let plain (d : N) :=
              match parse_chars Plain r with
              | Some (t, rest) => Some (String (ascii_of_code d) t, rest)
              | None => None
              end in
            if (n =? 34)%N then plain 34%N
            else if (n =? 92)%N then plain 92%N
            else if (n =? 47)%N then plain 47%N
            else if (n =? 98)%N then plain 8%N
            else if (n =? 102)%N then plain 12%N
            else if (n =? 110)%N then plain 10%N
            else if (n =? 114)%N then plain 13%N
            else if (n =? 116)%N then plain 9%N
            else None
      | Hex todo acc =>
          match hex_value c with
          | None => None
          | Some d =>
              let acc' := (16 * acc + d)%N in
              match todo with
              | 1%nat =>
                  match parse_chars Plain r with
                  | Some (t, rest) => Some (utf8 acc' ++ t, rest)
                  | None => None
                  end
              | S k => parse_chars (Hex k acc') r
              | O => None
              end
          end
      end
  end.

(** Splits off the longest prefix of decimal digits. *)
Fixpoint span_digits (s : string) : string * string :=
  match s with
  | String c r =>
      if is_digit c
      then let '(ds, rest) := span_digits r in (String c ds, rest)
      else (EmptyString, s)
  | EmptyString => (EmptyString, EmptyString)
  end.

(** Value of a run of decimal digits. *)
Definition digits_value (ds : string) : N :=
  match NilEmpty.uint_of_string ds with
  | Some u => N.of_uint u
  | None => 0%N
  end.

(** The optional fraction of a number: [None] on a lone point. *)
Definition parse_fraction (s : string) : option (string * string) :=
  match s with
  | String "." r =>
      match span_digits r with
      | (EmptyString, _) => None
      | (fs, rest) => Some (String "." fs, rest)
      end
  | _ => Some (EmptyString, s)
  end.

(** The optional exponent of a number. *)
Definition parse_exponent (s : string) : option (string * string) :=
  let after (e : ascii) (r : string) :=
    let '(sign, r1) :=
      match r with
      | String "+" r' => ("+", r')
      | String "-" r' => ("-", r')
      | _ => (EmptyString, r)
      end in
    match span_digits r1 with
    | (EmptyString, _) => None
    | (es, rest) => Some (String e (sign ++ es), rest)
    end in
  match s with
  | String "e" r => after "e"%char r
  | String "E" r => after "E"%char r
  | _ => Some (EmptyString, s)
  end.

(** A JSON number: an optional minus sign, an integer part without leading
    zero, an optional fraction, an optional exponent. *)
Definition parse_number (s : string) : option (json * string) :=
  let '(neg, s1) :=
    match s with
    | String "-" r => (true, r)
    | _ => (false, s)
    end in
  let '(ds, s2) := span_digits s1 in
  match ds with
  | EmptyString => None
  | String "0" (String _ _) => None
  | _ =>
      match parse_fraction s2 with
      | None => None
      | Some (frac, s3) =>
          match parse_exponent s3 with
          | None => None
          | Some (ex, s4) =>
              match frac, ex with
              | EmptyString, EmptyString =>
                  let v := Z.of_N (digits_value ds) in
                  Some (JNum (if neg then - v else v), s4)
              | _, _ =>
                  Some (JReal ((if neg then "-" else "") ++ ds ++ frac ++ ex), s4)
              end
          end
      end
  end.


(** Reads the rest of a literal name. *)
Definition expect (name : string) (v : json) (s : string) : option (json * string) :=
  match Js.strip_prefix name s with
  | Some rest => Some (v, rest)
  | None => None
  end.

(** What follows the character [q], when it comes next after white space. *)
Definition closes (q : ascii) (s : string) : option string :=
  match skip_ws s with
  | String c rest => if Ascii.eqb c q then Some rest else None
  | EmptyString => None
  end.

(** A value, the elements of an array after its first bracket, the members of
    an object after its first brace; [fuel] bounds the nesting and the number
    of elements. *)
Fixpoint parse_value (fuel : nat) (s : string) : option (json * string) :=
  match fuel with
  | O => None
  | S f =>
      match skip_ws s with
      | EmptyString => None
      | String c r =>
          if Ascii.eqb c "n" then expect "ull" JNull r
          else if Ascii.eqb c "t" then expect "rue" (JBool true) r
          else if Ascii.eqb c "f" then expect "alse" (JBool false) r
          else if Ascii.eqb c dquote then
            match parse_chars Plain r with
            | Some (t, rest) => Some (JStr t, rest)
            | None => None
            end
          else if Ascii.eqb c "[" then
            match closes "]" r with
            | Some rest => Some (JArr [], rest)
            | None =>
                match parse_elements f r with
                | Some (vs, rest) => Some (JArr vs, rest)
                | None => None
                end
            end
          else if Ascii.eqb c "{" then
            match closes "}" r with
            | Some rest => Some (JObj [], rest)
            | None =>
                match parse_members f r with
                | Some (ms, rest) => Some (JObj ms, rest)
                | None => None
                end
            end
          else parse_number (String c r)
      end
  end
with parse_elements (fuel : nat) (s : string) : option (list json * string) :=
  match fuel with
  | O => None
  | S f =>
      match parse_value f s with
      | None => None
      | Some (v, r) =>
          match closes "," r with
          | Some r' =>
              match parse_elements f r' with
              | Some (vs, rest) => Some (v :: vs, rest)
              | None => None
              end
          | None =>
              match closes "]" r with
              | Some rest => Some ([v], rest)
              | None => None
              end
          end
      end
  end
with parse_members (fuel : nat) (s : string) : option (list (string * json) * string) :=
  match fuel with
  | O => None
  | S f =>
      match closes dquote s with
      | None => None
      | Some r =>
          match parse_chars Plain r with
          | None => None
          | Some (k, r1) =>
              match closes ":" r1 with
              | None => None
              | Some r2 =>
                  match parse_value f r2 with
                  | None => None
                  | Some (v, r3) =>
                      match closes "," r3 with
                      | Some r4 =>
                          match parse_members f r4 with
                          | Some (ms, rest) => Some ((k, v) :: ms, rest)
                          | None => None
                          end
                      | None =>
                          match closes "}" r3 with
                          | Some rest => Some ([(k, v)], rest)
                          | None => None
                          end
                      end
                  end
              end
          end
      end
  end.

(** [JSON.parse(text)]: [None] where the built-in throws [SyntaxError]. *)
Definition parse (text : string) : option json :=
  match parse_value (2 * String.length text + 2) text with
  | Some (v, rest) =>
      match skip_ws rest with
      | EmptyString => Some v
      | _ => None
      end
  | None => None
  end.

(** [v[key]] for a parsed value other than [null]: the last member of that
    name of an object, [undefined] ([None]) otherwise. *)
Fixpoint member (key : string) (ms : list (string * json)) : option json :=
  match ms with
  | [] => None
  | (k, v) :: ms' =>
      match member key ms' with
      | Some v' => Some v'
      | None => if String.eqb k key then Some v else None
      end
  end.

Definition property (v : json) (key : string) : option json :=
  match v with
  | JObj ms => member key ms
  | _ => None
  end.

End Json.

(** ** The cache: the Redis client of [lib/token-info.ts]

    A client is connected or not; a command on a connected client succeeds.
    An entry keeps the time to live it was written with ([EX], seconds). *)

Module Redis.
Import Js.

Record entry : Type := mkEntry {
  value : string;
  EX : Z
}.

Record client : Type := mkClient {
  connected : bool;
  data : gmap string entry
}.

(** [await getClient()]: rejects when the connection cannot be made. *)
Definition getClient (r : client) : result unit :=
  if connected r then Ok tt else Throw (Native "connect ECONNREFUSED").

(** [await client.get(key)] *)
Definition get (key : string) (r : client) : option string :=
  value <$> data r !! key.

(** [await client.set(key, json, { EX: ttl })] *)
Definition set (key json : string) (ttl : Z) (r : client) : client :=
  mkClient (connected r) (<[key := mkEntry json ttl]> (data r)).

(** [await client.del(key)] *)
Definition del (key : string) (r : client) : client :=
  mkClient (connected r) (delete key (data r)).

End Redis.

(** ** The credential ([lib/token-info.ts]) *)

Module Token.
Import Js.

(** [class TokenInfo { token: string | null; expire: number | null }];
    [new TokenInfo()] is [empty]. *)
Record TokenInfo : Type := mkTokenInfo {
  token : option string;
  expire : option Z
}.

Definition empty : TokenInfo := mkTokenInfo None None.

(** [DEFAULT_TTL] of [types/index.ts], and the default key. *)
Definition DEFAULT_TTL : Z := 3600.
Definition DEFAULT_KEY : string := "token_info".

(** [isValid()]; [now] is the value [Date.now()] returns. *)
Definition isValid (now : Z) (t : TokenInfo) : bool :=
  if negb (truthy_string (token t)) || negb (truthy_number (expire t))
  then false
  else
    match expire t with
    | Some e => now <? e
    | None => false
    end.

(** The object [{ token: this.token, expire: this.expire }] *)
Definition to_json (t : TokenInfo) : Json.json :=
  Json.JObj
    [ ("token", match token t with Some s => Json.JStr s | None => Json.JNull end);
      ("expire", match expire t with Some e => Json.JNum e | None => Json.JNull end) ].

(** A property read as [string | null]: [undefined] and [null] are absent;
    [None] when the value is of another type, which the annotation
    [parsed: { token: string; expire: number }] rules out. *)
Definition as_string (p : option Json.json) : option (option string) :=
  match p with
  | None | Some Json.JNull => Some None
  | Some (Json.JStr s) => Some (Some s)
  | Some _ => None
  end.

(** A property read as [number | null]; [None] when the value is not an
    integer number. *)
Definition as_number (p : option Json.json) : option (option Z) :=
  match p with
  | None | Some Json.JNull => Some None
  | Some (Json.JNum z) => Some (Some z)
  | Some _ => None
  end.

(** [TokenInfo.fromRedis(key)].  The result is [None] when the stored text is
    JSON whose [token] or [expire] is not of the annotated type: such a value
    is outside this embedding. *)
Definition fromRedis (key : string) (r : Redis.client)
  : option (result TokenInfo * Redis.client) :=
  let failed := Throw (RedisError "Failed to load token from Redis") in
  match Redis.getClient r with
  | Throw _ => Some (failed, r)
  | Ok _ =>
      match Redis.get key r with
      | None => Some (Ok empty, r)
      | Some json =>
          if String.eqb json ""
          then Some (Ok empty, r)                         (* [!json] *)
          else
            match Json.parse json with
            | None => Some (Ok empty, Redis.del key r)    (* inner [catch] *)
            | Some Json.JNull => Some (failed, r)         (* [parsed.token] throws *)
            | Some parsed =>
                match as_string (Json.property parsed "token"),
                      as_number (Json.property parsed "expire") with
                | Some t, Some e => Some (Ok (mkTokenInfo t e), r)
                | _, _ => None
                end
            end
      end
  end.

(** [save(key, ttl)] *)
Definition save (key : string) (ttl : Z) (t : TokenInfo) (r : Redis.client)
  : result unit * Redis.client :=
  let body : result unit * Redis.client :=
    match Redis.getClient r with
    | Throw e => (Throw e, r)
    | Ok _ =>
        if negb (truthy_string (token t)) || negb (truthy_number (expire t))
        then (Throw (AppError "Cannot save invalid token" "INVALID_TOKEN_SAVE"), r)
        else (Ok tt, Redis.set key (Json.stringify (to_json t)) ttl r)
    end in
  match body with
  | (Ok _, r') => (Ok tt, r')
  | (Throw _, r') => (Throw (RedisError "Failed to save token to Redis"), r')
  end.


(** [getToken()] *)
Definition getToken (t : TokenInfo) : result string :=
  match token t with
  | Some s =>
      if String.eqb s ""
      then Throw (AuthenticationError "No valid token available")
      else Ok s
  | None => Throw (AuthenticationError "No valid token available")
  end.

(** [getExpire()] *)
Definition getExpire (t : TokenInfo) : option Z := expire t.



End Token.

(** ** The identity provider ([lib/wechat-utils.ts]) *)

Module Wechat.
Import Js.

(** What [await request<string>(url, ...)] gives: a text body, a value that
    is not a string (a body that is itself JSON), or a rejection. *)
Inductive response : Type :=
| Body (text : string)
| NotText
| Failed (e : error).

(** The longest prefix of characters of a class, and what follows. *)
Fixpoint span (cls : ascii -> bool) (s : string) : string * string :=
  match s with
  | String c r =>
      if cls c
      then let '(run, rest) := span cls r in (String c run, rest)
      else (EmptyString, s)
  | EmptyString => (EmptyString, EmptyString)
  end.

(** Group 1 of [text.match(/lit(cls+)/)]: the leftmost place where [lit] is
    followed by at least one character of the class; the group is the whole
    run of such characters. *)
Fixpoint match_run (lit : string) (cls : ascii -> bool) (text : string)
  : option string :=
  let here :=
    match strip_prefix lit text with
    | Some after =>
        match span cls after with
        | (EmptyString, _) => None
        | (run, _) => Some run
        end
    | None => None
    end in
  match here with
  | Some run => Some run
  | None =>
      match text with
      | String _ text' => match_run lit cls text'
      | EmptyString => None
      end
  end.

(** Group 1 of [text.match(/lit([^q]+)q/)] for a closing character [q]: the
    run of characters other than [q] must be followed by [q]. *)
Fixpoint match_until (lit : string) (q : ascii) (text : string)
  : option string :=
  let here :=
    match strip_prefix lit text with
    | Some after =>
        match span (fun c => negb (Ascii.eqb c q)) after with
        | (EmptyString, _) => None
        | (run, String _ _) => Some run
        | (_, EmptyString) => None
        end
    | None => None
    end in
  match here with
  | Some run => Some run
  | None =>
      match text with
      | String _ text' => match_until lit q text'
      | EmptyString => None
      end
  end.

(** [[a-zA-Z0-9_-]] *)
Definition is_uuid_char (c : ascii) : bool :=
  let n := Json.code_of_ascii c in
  (((97 <=? n) && (n <=? 122)) || ((65 <=? n) && (n <=? 90))
   || ((48 <=? n) && (n <=? 57)) || (n =? 95) || (n =? 45))%N.

(** [fetchUUID()], given the answer of the login page. *)
Definition fetchUUID (page : response) : result string :=
  let body : result string :=
    match page with
    | Failed e => Throw e
    | NotText => Throw (Native "html.match is not a function")
    | Body html =>
        match match_run "uuid=" is_uuid_char html with
        | None =>
            Throw (AppError "Failed to extract UUID from WeChat response"
                     "UUID_EXTRACTION_ERROR")
        | Some uuid => Ok uuid
        end
    end in
  try_catch body (fun e =>
    Throw (if instanceof_AppError e then e else NetworkError "Failed to fetch UUID")).

(** [errcode] of a poll: the number after [wx_errcode=]. *)
Definition wx_errcode (text : string) : option N :=
  match match_run "wx_errcode=" Json.is_digit text with
  | Some ds => Some (Json.digits_value ds)
  | None => None
  end.

(** [codeMatch[1]] of a poll: the text between quotes after [wx_code=]. *)
Definition wx_code (text : string) : option string :=
  match_until "wx_code='" "'"%char text.

Definition maxPolls : nat := 300.

(** What a call of [pollWxCode] did: the code it returned ([None] for
    [null]), the number of status requests it issued, and the time it spent
    in [setTimeout], in milliseconds. *)
Record polled : Type := mkPolled {
  code : option string;
  requests : nat;
  waited : Z
}.

(** [errcode === n] *)
Definition is_code (errcode : option N) (n : N) : bool :=
  match errcode with
  | Some m => (m =? n)%N
  | None => false
  end.

(** The [while (polls < maxPolls)] loop; [remaining] is [maxPolls - polls],
    and [status k] is the answer to the [k]-th status request. *)
Fixpoint poll_loop (status : nat -> response) (remaining polls : nat) (waited : Z)
  : polled :=
  match remaining with
  | O => mkPolled None polls waited
  | S remaining' =>
      let polls := S polls in
      match status polls with
      | Body text =>
          let errcode := wx_errcode text in
          let codeMatch := wx_code text in
          match (if is_code errcode 405 then codeMatch else None) with
          | Some code => mkPolled (Some code) polls waited
          | None =>
              if is_code errcode 404
              then poll_loop status remaining' polls (waited + 1000)
              else if is_code errcode 403
              then mkPolled None polls waited
              else poll_loop status remaining' polls (waited + 1000)
          end
      | NotText | Failed _ =>
          poll_loop status remaining' polls (waited + 2000)
      end
  end.

(** [pollWxCode(uuid)] *)
Definition pollWxCode (uuid : string) (status : nat -> response) : result polled :=
  if String.eqb uuid ""
  then Throw (AppError "UUID is required for polling" "MISSING_UUID")
  else Ok (poll_loop status maxPolls 0 0).

(** The signals of the specification: an answer of the status endpoint says
    that the code was scanned (and carries the one-time code), that it
    expired, or, with any other status code, that the scan is still awaited.
    A transport failure counts as still waiting. *)
Inductive signal : Type :=
| Scanned (code : string)
| Expired
| StillWaiting.

Definition signal_of (answer : response) : signal :=
  match answer with
  | Body text =>
      match wx_errcode text, wx_code text with
      | Some n, Some code =>
          if (n =? 405)%N then Scanned code
          else if (n =? 403)%N then Expired
          else StillWaiting
      | Some n, None => if (n =? 403)%N then Expired else StillWaiting
      | None, _ => StillWaiting
      end
  | NotText | Failed _ => StillWaiting
  end.

(** The delay before the next poll: one second after an answer, two after a
    transport failure. *)
Definition delay (answer : response) : Z :=
  match answer with
  | Body _ => 1000
  | NotText | Failed _ => 2000
  end.

(** Answers of the status endpoint, for the examples. *)
Definition waiting_answer : response :=
  Body "window.wx_errcode=408;window.wx_code='';".
Definition scanned_answer : response :=
  Body "window.wx_errcode=405;window.wx_code='abc';".
Definition expired_answer : response :=
  Body "window.wx_errcode=403;window.wx_code='';".

(** The answer of the token-exchange endpoint, as far as it is read:
    [response?.Data?.Token] and [response?.Data?.Expire]. *)
Record WeChatTokenResponse : Type := mkTokenResponse {
  Token : option string;
  Expire : option Z
}.

(** [fetchTokenByWxCode(wxCode)], given the answer of the endpoint. *)
Definition fetchTokenByWxCode (wxCode : string) (answer : result WeChatTokenResponse)
  : result (string * Z) :=
  if String.eqb wxCode ""
  then Throw (AppError "WeChat code is required" "MISSING_WX_CODE")
  else
    let body : result (string * Z) :=
      response ← answer;
      if negb (truthy_string (Token response)) || negb (truthy_number (Expire response))
      then Throw (AppError "Invalid token response from WeChat API" "INVALID_TOKEN_RESPONSE")
      else
        match Token response, Expire response with
        | Some tokenData, Some expire => Ok ("Bearer " ++ tokenData, expire)
        | _, _ => Throw (AppError "Invalid token response from WeChat API" "INVALID_TOKEN_RESPONSE")
        end in
    try_catch body (fun e =>
      Throw (if instanceof_AppError e then e
             else NetworkError "Failed to fetch token with WeChat code")).


(** The address the polls are sent to. *)
Definition pollUrl (uuid : string) : string :=
  "https://lp.open.weixin.qq.com/connect/l/qrconnect?uuid=" ++ uuid ++ "&last=404".

(** What [pollWxCode] makes of the value [request] resolves with: only a
    string has a [match] method. *)
Definition answer_of (r : result Json.json) : response :=
  match r with
  | Ok (Json.JStr text) => Body text
  | Ok _ => NotText
  | Throw e => Failed e
  end.

(** Every character of [s] is of the class. *)
Fixpoint all_chars (cls : ascii -> bool) (s : string) : bool :=
  match s with
  | String c s' => cls c && all_chars cls s'
  | EmptyString => true
  end.

End Wechat.

(** ** The check-in client ([lib/checkin-utils.ts]) *)

Module Checkin.
Import Js.

(** A coordinate is a decimal number, [units / 10 ^ places], as a literal
    such as [28.423147] denotes it: [units = 28423147], [places = 6]. *)
Record number : Type := mkNumber {
  units : Z;
  places : nat
}.

Definition of_Z (z : Z) : number := mkNumber z 0.

(** [a < b] *)
Definition lt (a b : number) : bool :=
  units a * 10 ^ Z.of_nat (places b) <? units b * 10 ^ Z.of_nat (places a).

Fixpoint strip_zeros_end (s : string) : string :=
  match s with
  | EmptyString => EmptyString
  | String c r =>
      match strip_zeros_end r with
      | EmptyString => if Ascii.eqb c "0" then EmptyString else String c EmptyString
      | t => String c t
      end
  end.

Fixpoint zeros (n : nat) : string :=
  match n with
  | O => EmptyString
  | S n' => String "0" (zeros n')
  end.

(** [Number.prototype.toString()], which [JSON.stringify] uses: with [s] the
    [k] significant digits of the number and [n] the position of its decimal
    point, the digits are written plainly when [-6 < n <= 21] and with an
    exponent otherwise. *)
Definition number_to_string (x : number) : string :=
  if units x =? 0 then "0"
  else
    let all := Json.digits (Z.abs_N (units x)) in
    let s := strip_zeros_end all in
    let k := String.length s in
    let n := Z.of_nat (String.length all) - Z.of_nat (places x) in
    let body :=
      if (Z.of_nat k <=? n) && (n <=? 21)
      then s ++ zeros (Z.to_nat n - k)
      else if (0 <? n) && (n <=? 21)
      then String.substring 0 (Z.to_nat n) s ++ "."
           ++ String.substring (Z.to_nat n) (k - Z.to_nat n) s
      else if (-6 <? n) && (n <=? 0)
      then "0." ++ zeros (Z.to_nat (- n)) ++ s
      else
        let e := n - 1 in
        let exponent := (if e <? 0 then "-" else "+") ++ Json.digits (Z.abs_N e) in
        match s with
        | String d EmptyString => String d ("e" ++ exponent)
        | String d rest => String d ("." ++ rest ++ "e" ++ exponent)
        | EmptyString => EmptyString
        end in
    (if units x <? 0 then "-" else "") ++ body.

Record Location : Type := mkLocation {
  latitude : number;
  longitude : number
}.

Record CheckInRecordField : Type := mkField {
  FieldId : Z;
  Values : list string;
  Texts : list string;
  HasValue : bool
}.

Record CheckInPayload : Type := mkPayload {
  Id : Z;
  ThreadId : Z;
  Signature : string;
  RecordValues : list CheckInRecordField
}.

(** Constants of [types/index.ts]. *)
Definition THREAD_ID : Z := 163231508.
Definition DEFAULT_LOCATION : Location :=
  mkLocation (mkNumber 28423147 6) (mkNumber 117976543 6).
Definition SUBMIT : string := "https://i-api.jielong.com/api/CheckIn/EditRecord".

(** The place name sent with every check-in. *)
Definition PLACE_NAME : string := "上饶市信州区•上饶师范学院".

(** [validateLocation(location)] *)
Definition validateLocation (location : Location) : result unit :=
  if lt (latitude location) (of_Z (-90)) || lt (of_Z 90) (latitude location)
  then Throw (ValidationError "Latitude must be between -90 and 90")
  else if lt (longitude location) (of_Z (-180)) || lt (of_Z 180) (longitude location)
  then Throw (ValidationError "Longitude must be between -180 and 180")
  else Ok tt.


(** The object [location], written [{ latitude, longitude }]; a coordinate
    is written by [JSON.stringify] as [number_to_string] gives it. *)
Definition to_json (location : Location) : Json.json :=
  Json.JObj
    [ ("latitude", Json.JReal (number_to_string (latitude location)));
      ("longitude", Json.JReal (number_to_string (longitude location))) ].

(** The object [payload] that [submitCheckIn] builds, from the trimmed
    signature and the location it settled on. *)
Definition payload (signature : string) (finalLocation : Location) : CheckInPayload :=
  {| Id := 0;
     ThreadId := THREAD_ID;
     Signature := signature;
     RecordValues :=
       [ {| FieldId := 1; Values := []; Texts := []; HasValue := false |};
         {| FieldId := 2;
            Values := [Json.stringify (to_json finalLocation)];
            Texts := [PLACE_NAME];
            HasValue := true |} ] |}.

(** The check-in API as [submitCheckIn] calls it:
    [request(url, { method: 'POST', body }, token)]. *)
Definition api : Type := string -> CheckInPayload -> string -> result Json.json.

(** [submitCheckIn(token, signature, location)]; [None] is a location not
    supplied ([undefined] or [null]). *)
Definition submitCheckIn (request : api) (token signature : string)
    (location : option Location) : result Json.json :=
  if String.eqb token ""
  then Throw (ValidationError "Token is required for check-in submission")
  else if blank signature
  then Throw (ValidationError "Signature is required for check-in submission")
  else
    let finalLocation := default DEFAULT_LOCATION location in
    _ ← validateLocation finalLocation;
    try_catch (request SUBMIT (payload (trim signature) finalLocation) token)
      (fun e =>
         Throw (if instanceof_AppError e then e
                else NetworkError "Failed to submit check-in")).


(** [WECHAT_ENDPOINTS.API_BASE] and [CHECKIN_ENDPOINTS.INFO(threadId)] *)
Definition API_BASE : string := "https://i-api.jielong.com/api".
Definition INFO (threadId : Z) : string :=
  API_BASE ++ "/Thread/CheckIn/NameScope?threadId=" ++ Json.integer_to_string threadId.

(** The check-in API as [getCheckInInfo] calls it:
    [request(url, { method: 'GET' }, token)]. *)
Definition info_api : Type := string -> string -> result Json.json.

(** [getCheckInInfo(token)] *)
Definition getCheckInInfo (request : info_api) (token : string) : result Json.json :=
  if String.eqb token ""
  then Throw (ValidationError "Token is required for getting check-in info")
  else if (THREAD_ID =? 0) || (THREAD_ID <=? 0)
  then Throw (ValidationError "Invalid thread ID")
  else
    try_catch (request (INFO THREAD_ID) token)
      (fun e =>
         Throw (if instanceof_AppError e then e
                else NetworkError "Failed to get check-in info")).

(** The payload as the JSON value [JSON.stringify] is given. *)
Definition field_json (f : CheckInRecordField) : Json.json :=
  Json.JObj
    [ ("FieldId", Json.JNum (FieldId f));
      ("Values", Json.JArr (map Json.JStr (Values f)));
      ("Texts", Json.JArr (map Json.JStr (Texts f)));
      ("HasValue", Json.JBool (HasValue f)) ].

Definition payload_json (p : CheckInPayload) : Json.json :=
  Json.JObj
    [ ("Id", Json.JNum (Id p));
      ("ThreadId", Json.JNum (ThreadId p));
      ("Signature", Json.JStr (Signature p));
      ("RecordValues", Json.JArr (map field_json (RecordValues p))) ].

End Checkin.

(** ** The scheduler ([lib/scheduler.ts])

    The jobs of the cron library live in a heap: [jobs] lists every
    [CronJob] constructed so far, and a job is referred to by its index.
    Constructing, starting and stopping a job do not throw. *)

Module Scheduler.
Import Js.

Record CronJob : Type := mkJob {
  cronTime : string;
  timeZone : string;
  running : bool
}.

Record state : Type := mkState {
  jobs : list CronJob;
  checkinJob : option nat     (* [let checkinJob: CronJob | null] *)
}.

Definition initial : state := mkState [] None.

Definition DAILY_CHECKIN_TIME : string := "0 5 19 * * *".
Definition TIMEZONE : string := "Asia/Shanghai".

Definition set_running (b : bool) (j : CronJob) : CronJob :=
  mkJob (cronTime j) (timeZone j) b.

(** The number of jobs whose timer is armed. *)
Definition running_jobs (s : state) : nat :=
  length (filter (fun j => running j = true) (jobs s)).

(** [startScheduler()] *)
Definition startScheduler (s : state) : state :=
  match checkinJob s with
  | Some _ => s
  | None =>
      let job := length (jobs s) in
      (* [new CronJob(time, performDailyCheckin, null, false, zone)] *)
      let heap := (jobs s ++ [mkJob DAILY_CHECKIN_TIME TIMEZONE false])%list in
      (* [checkinJob.start()] *)
      mkState (alter (set_running true) job heap) (Some job)
  end.

(** [stopScheduler()] *)
Definition stopScheduler (s : state) : state :=
  match checkinJob s with
  | Some job => mkState (alter (set_running false) job (jobs s)) None
  | None => s
  end.

Record status : Type := mkStatus {
  isRunning : bool;
  checkinJobStatus : bool;
  nextCheckinDate : option Z
}.

(** [getSchedulerStatus()]; [nextDate job] is what
    [checkinJob.nextDate()?.toJSDate()] evaluates to. *)
Definition getSchedulerStatus (nextDate : nat -> result (option Z)) (s : state)
  : status * state :=
  match checkinJob s with
  | Some job =>
      match nextDate job with
      | Ok (Some date) => (mkStatus true true (Some date), s)
      | Ok None | Throw _ => (mkStatus false false None, mkState (jobs s) None)
      end
  | None => (mkStatus false false None, s)
  end.

(** The calls that start and stop the scheduler, and a run of them. *)
Inductive call : Type := Start | Stop.

Definition step (s : state) (c : call) : state :=
  match c with
  | Start => startScheduler s
  | Stop => stopScheduler s
  end.

Definition run (calls : list call) (s : state) : state :=
  fold_left step calls s.

(** No job runs but the one [checkinJob] holds, which is the last one
    constructed. *)
Definition well_formed (s : state) : Prop :=
  exists idle : list CronJob,
    Forall (fun j => running j = false) idle
    /\ ((checkinJob s = None /\ jobs s = idle)
        \/ (exists j, checkinJob s = Some (length idle)
                      /\ running j = true
                      /\ jobs s = (idle ++ [j])%list)).


(** The scheduler as the server exposes it: start, stop, and the status
    query, which may drop the job it finds without a next date. *)
Inductive request : Type := DoStart | DoStop | AskStatus.

Definition serve_one (nextDate : nat -> result (option Z)) (s : state) (r : request)
  : state :=
  match r with
  | DoStart => startScheduler s
  | DoStop => stopScheduler s
  | AskStatus => snd (getSchedulerStatus nextDate s)
  end.

Definition serve (nextDate : nat -> result (option Z)) (requests : list request)
    (s : state) : state :=
  fold_left (serve_one nextDate) requests s.

End Scheduler.

(** ** The notifier ([lib/email-utils.ts]) *)

Module Email.
Import Js.

Record EmailConfig : Type := mkConfig {
  host : string;
  port : Z;
  secure : bool;
  user : string;
  pass : string
}.

(** The options handed to the transport; the bodies ([text], [html]) are
    text built from templates and are left out. *)
Record EmailOptions : Type := mkOptions {
  from : string;
  to : string;
  subject : string;
  attachments : list (string * list Byte.byte)
}.

(** What the configuration, the file system and the mail transport answer. *)
Record world : Type := mkWorld {
  EMAIL_ENABLED : bool;
  getEmailConfig : result EmailConfig;
  createTransport : EmailConfig -> result unit;
  writeFile : string -> list Byte.byte -> result unit;
  sendMail : EmailOptions -> result string;
  unlink : string -> result unit
}.

Inductive level : Type := debug | info | warn | error_level.

(** The lines a call hands to the logger. *)
Definition log : Type := list (level * string).

(** [createMailSender()] *)
Definition createMailSender (w : world) : result unit :=
  if negb (EMAIL_ENABLED w)
  then Throw (AppError "Email functionality is disabled due to incomplete configuration"
                "EMAIL_DISABLED")
  else
    try_catch
      (emailConfig ← getEmailConfig w; createTransport w emailConfig)
      (fun _ => Throw (AppError "Failed to create email transporter" "EMAIL_TRANSPORT_ERROR")).

(** The sender [name <address>], the name between double quotes. *)
Definition sender (name address : string) : string :=
  String Json.dquote (name ++ String Json.dquote (" <" ++ address ++ ">")).

(** [sendEmailWithQRCode(uuid, qrBuffer)] *)
Definition sendEmailWithQRCode (w : world) (uuid : string) (qrBuffer : list Byte.byte)
  : result unit * log :=
  if negb (EMAIL_ENABLED w)
  then (Ok tt, [(debug, "Email disabled - skipping QR code email")])
  else if blank uuid
  then (Throw (ValidationError "UUID is required for QR code email"), [])
  else if (length qrBuffer =? 0)%nat
  then (Throw (ValidationError "QR code buffer is required and must not be empty"), [])
  else
    let started := [(info, "Sending QR code email")] in
    let body : result log :=
      _ ← createMailSender w;
      config ← getEmailConfig w;
      let qrPath := "qrcode_" ++ uuid ++ ".png" in
      _ ← writeFile w qrPath qrBuffer;
      let mailOptions :=
        {| from := sender "WeChat Login" (user config);
           to := user config;
           subject := "请扫码登录微信（自动签到机器人）";
           attachments := [("wechat_login_" ++ uuid ++ ".png", qrBuffer)] |} in
      _ ← sendMail w mailOptions;
      let cleanup :=
        match unlink w qrPath with
        | Ok _ => []
        | Throw _ => [(warn, "Failed to cleanup temporary QR code file")]
        end in
      Ok (cleanup ++ [(info, "QR code email sent successfully")])%list in
    match body with
    | Ok lines => (Ok tt, (started ++ lines)%list)
    | Throw _ => (Ok tt, (started ++ [(warn, "Failed to send QR code email")])%list)
    end.

(** [resultData] of [sendCheckinResult]: [Data] when it is a string, else
    [JSON.stringify(Data || '未知')]; a number written with a fraction or an
    exponent is taken to be truthy. *)
Definition resultData (result : Json.json) : string :=
  match Json.property result "Data" with
  | Some (Json.JStr s) => s
  | Some (Json.JObj ms) => Json.stringify (Json.JObj ms)
  | Some (Json.JArr vs) => Json.stringify (Json.JArr vs)
  | Some (Json.JBool true) => "true"
  | Some (Json.JReal literal) => literal
  | Some (Json.JNum z) =>
      if z =? 0 then Json.quote "未知" else Json.integer_to_string z
  | Some (Json.JBool false) | Some Json.JNull | None => Json.quote "未知"
  end.

(** [sendCheckinResult(result)] *)
Definition sendCheckinResult (w : world) (result : Json.json) : Js.result unit * log :=
  if negb (EMAIL_ENABLED w)
  then (Ok tt, [(debug, "Email disabled - skipping check-in result email")])
  else
    let started := [(info, "Sending check-in result email")] in
    let body : Js.result unit :=
      _ ← createMailSender w;
      config ← getEmailConfig w;
      let data := resultData result in
      let mailOptions :=
        {| from := sender "WeChat Login" (user config);
           to := user config;
           subject := "签到结果 - " ++ (if String.eqb data "" then "未知" else data);
           attachments := [] |} in
      _ ← sendMail w mailOptions;
      Ok tt in
    match body with
    | Ok _ => (Ok tt, (started ++ [(info, "Check-in result email sent successfully")])%list)
    | Throw _ => (Ok tt, (started ++ [(warn, "Failed to send check-in result email")])%list)
    end.


(** [sendTokenExpiredEmail(reauthUrl, isExpiringSoon)] *)
Definition sendTokenExpiredEmail (w : world) (reauthUrl : option string)
    (isExpiringSoon : bool) : result unit * log :=
  if negb (EMAIL_ENABLED w)
  then (Ok tt, [(debug, "Email disabled - skipping token expired email")])
  else
    let subject :=
      if isExpiringSoon then "⚠️ Token即将过期提醒" else "⚠️ Token已过期，需要重新授权" in
    let started :=
      [(info, "Sending token " ++ (if isExpiringSoon then "expiring soon" else "expired")
                ++ " notification email")] in
    let body : result unit :=
      _ ← createMailSender w;
      config ← getEmailConfig w;
      let mailOptions :=
        {| from := sender "自动签到系统" (user config);
           to := user config;
           subject := subject;
           attachments := [] |} in
      _ ← sendMail w mailOptions;
      Ok tt in
    match body with
    | Ok _ => (Ok tt, (started ++ [(info, "Token expired email sent successfully")])%list)
    | Throw _ => (Ok tt, (started ++ [(warn, "Failed to send token expired email")])%list)
    end.

End Email.

(** ** The credential manager ([TokenInfo.get_ensureLoggedIn])

    The login loop has no bound: it is run against a script, the list of what
    the outside world answers at each turn of the loop, and is [Pending] when
    the script ends with the loop still turning.  The clock advances by the
    delays the program waits for. *)

Module Login.
Import Js.

Record world : Type := mkWorld {
  redis : Redis.client;
  clock : Z                (* what [Date.now()] returns *)
}.

(** What the outside world answers during one turn of the loop. *)
Record attempt : Type := mkAttempt {
  login_page : Wechat.response;                    (* to [fetchUUID()] *)
  qr_image : result (list Byte.byte);              (* [fetchQRCodeBuffer(uuid)] *)
  qr_print : result unit;                          (* [printAsciiQRCode(uuid)] *)
  mail : Email.world;                              (* during [sendEmailWithQRCode] *)
  status : nat -> Wechat.response;                 (* to the polls *)
  exchange : result Wechat.WeChatTokenResponse;    (* to the token exchange *)
  cache_up : bool                                  (* the cache, when saving *)
}.

Inductive outcome : Type :=
| Returned (t : Token.TokenInfo)
| Raised (e : error)
| Pending.

(** [await new Promise((resolve) => setTimeout(resolve, ms))] *)
Definition sleep (ms : Z) (w : world) : world :=
  mkWorld (redis w) (clock w + ms).

(** [TokenInfo.fetchTokenByWxCode(wxCode)] *)
Definition fetchTokenByWxCode (wxCode : string)
    (answer : result Wechat.WeChatTokenResponse) : result Token.TokenInfo :=
  try_catch
    (tokenData ← Wechat.fetchTokenByWxCode wxCode answer;
     Ok (Token.mkTokenInfo (Some (fst tokenData)) (Some (snd tokenData))))
    (fun e =>
       Throw (if instanceof_AppError e then e
              else AuthenticationError "Failed to fetch token with WeChat code")).

(** The [catch] that closes [get_ensureLoggedIn]. *)
Definition rethrow (e : error) : error :=
  if instanceof_AppError e then e else AuthenticationError "Login flow failed".

(** The [while (true)] loop of [get_ensureLoggedIn]. *)
Fixpoint login_loop (script : list attempt) (w : world) : outcome * world :=
  match script with
  | [] => (Pending, w)
  | a :: script' =>
      match Wechat.fetchUUID (login_page a) with
      | Throw _ => login_loop script' (sleep 2000 w)
      | Ok uuid =>
          let qrBuffer :=
            match qr_image a with
            | Ok buffer => buffer
            | Throw _ => []                  (* [Buffer.alloc(0)] *)
            end in
          let displayed := try_catch (qr_print a) (fun _ => Ok tt) in
          let mailed :=
            try_catch (fst (Email.sendEmailWithQRCode (mail a) uuid qrBuffer))
              (fun _ => Ok tt) in
          match Wechat.pollWxCode uuid (status a) with
          | Throw e => (Raised (rethrow e), w)
          | Ok polled =>
              let w := sleep (Wechat.waited polled) w in
              match Wechat.code polled with
              | None => login_loop script' (sleep 2000 w)
              | Some wxCode =>
                  if String.eqb wxCode ""
                  then login_loop script' (sleep 2000 w)      (* [!wxCode] *)
                  else
                    match fetchTokenByWxCode wxCode (exchange a) with
                    | Throw _ => login_loop script' (sleep 2000 w)
                    | Ok newTokenInfo =>
                        let cache := Redis.mkClient (cache_up a) (Redis.data (redis w)) in
                        match Token.save Token.DEFAULT_KEY Token.DEFAULT_TTL newTokenInfo cache with
                        | (Ok _, cache') => (Returned newTokenInfo, mkWorld cache' (clock w))
                        | (Throw _, cache') =>
                            login_loop script' (sleep 2000 (mkWorld cache' (clock w)))
                        end
                    end
              end
          end
      end
  end.

(** [TokenInfo.get_ensureLoggedIn()]; [None] when the cache holds a value
    outside the embedding (see [Token.fromRedis]). *)
Definition get_ensureLoggedIn (script : list attempt) (w : world)
  : option (outcome * world) :=
  match Token.fromRedis Token.DEFAULT_KEY (redis w) with
  | None => None
  | Some (Throw e, _) => Some (Raised (rethrow e), w)
  | Some (Ok tokenInfo, cache) =>
      let w := mkWorld cache (clock w) in
      if Token.isValid (clock w) tokenInfo
      then Some (Returned tokenInfo, w)
      else Some (login_loop script w)
  end.


End Login.

(** ** The HTTP wrapper ([lib/request.ts]) *)

Module Http.
Import Js.

Record RequestOptions : Type := mkOptions {
  method : option string;
  headers : option (gmap string string);
  body : option Json.json
}.

(** What is handed to [fetch]. *)
Record RequestInit : Type := mkInit {
  init_method : string;
  init_headers : gmap string string;
  init_body : option string
}.

Record Response : Type := mkResponse {
  ok : bool;
  status : Z;
  statusText : string;
  text : result string            (* [await response.text()] *)
}.

(** [fetch(url, requestOptions)] *)
Definition fetch : Type := string -> RequestInit -> result Response.

(** [error.message] *)
Definition message (e : error) : string :=
  match e with
  | AppError m _ => m
  | ValidationError m => m
  | AuthenticationError m => m
  | NetworkError m => m
  | RedisError m => m
  | Native m => m
  end.

(** [error instanceof NetworkError] *)
Definition instanceof_NetworkError (e : error) : bool :=
  match e with
  | NetworkError _ => true
  | _ => false
  end.

(** A number literal with a digit other than zero before its exponent. *)
Fixpoint nonzero_literal (literal : string) : bool :=
  match literal with
  | EmptyString => false
  | String c r =>
      if Ascii.eqb c "e" || Ascii.eqb c "E" then false
      else if Json.is_digit c && negb (Ascii.eqb c "0") then true
      else nonzero_literal r
  end.

(** Truthiness of a value. *)
Definition truthy (v : Json.json) : bool :=
  match v with
  | Json.JNull => false
  | Json.JBool b => b
  | Json.JNum z => negb (z =? 0)
  | Json.JReal literal => nonzero_literal literal
  | Json.JStr s => negb (String.eqb s "")
  | Json.JArr _ | Json.JObj _ => true
  end.

(** [defaultHeaders], with [Authorization] when a token is given. *)
Definition defaultHeaders (token : option string) : gmap string string :=
  let fixed : gmap string string :=
    list_to_map
      [ ("content-type", "application/json");
        ("accept", "application/json, text/plain, */*");
        ("origin", "https://i.jielong.com");
        ("referer", "https://i.jielong.com/");
        ("user-agent",
         "Mozilla/5.0 (iPhone; CPU iPhone OS 16_0 like Mac OS X) AppleWebKit/605.1.15 (KHTML, like Gecko) Mobile/16A366 MicroMessenger/8.0.40 NetType/WIFI Language/zh_CN");
        ("sec-fetch-mode", "cors");
        ("sec-fetch-site", "same-site");
        ("sec-fetch-dest", "empty") ] in
  match token with
  | Some t => if String.eqb t "" then fixed else <["Authorization" := t]> fixed
  | None => fixed
  end.

(** [requestOptions]: the method, the merged headers, the serialized body. *)
Definition requestOptions (options : RequestOptions) (token : option string)
  : RequestInit :=
  {| init_method :=
       match method options with
       | Some m => if String.eqb m "" then "GET" else m
       | None => "GET"
       end;
     init_headers := default ∅ (headers options) ∪ defaultHeaders token;
     init_body :=
       match body options with
       | Some b =>
           if truthy b
           then Some (match b with
                      | Json.JStr s => s
                      | _ => Json.stringify b
                      end)
           else None
       | None => None
       end |}.

(** [request(url, options, token)] *)
Definition request (fetch : fetch) (url : string) (options : RequestOptions)
    (token : option string) : result Json.json :=
  let attempt : result Json.json :=
    response ← fetch url (requestOptions options token);
    if negb (ok response)
    then Throw (NetworkError ("HTTP request failed: "
                              ++ Json.integer_to_string (status response)
                              ++ " " ++ statusText response))
    else
      text ← text response;
      Ok (match Json.parse text with
          | Some parsed => parsed
          | None => Json.JStr text
          end) in
  try_catch attempt (fun e =>
    Throw (if instanceof_NetworkError e then e
           else NetworkError ("Request failed: " ++ message e))).

(** The status endpoint, the [k]-th poll going through [network k]. *)
Definition poll_status (network : nat -> fetch) (uuid : string) (k : nat)
  : Wechat.response :=
  Wechat.answer_of
    (request (network k) (Wechat.pollUrl uuid) (mkOptions (Some "GET") None None) None).

(** The check-in API over [request]. *)
Definition info_api (fetch : fetch) : Checkin.info_api :=
  fun url token => request fetch url (mkOptions (Some "GET") None None) (Some token).

Definition api (fetch : fetch) : Checkin.api :=
  fun url payload token =>
    request fetch url
      (mkOptions (Some "POST") None (Some (Checkin.payload_json payload)))
      (Some token).

End Http.

(** ** The configuration ([utils/config.ts]), once loaded *)

Module Config.
Import Js.

Record EnvConfig : Type := mkEnvConfig {
  REDIS_TOKEN : string;
  REDIS_ADDR : string;
  EMAIL_HOST : option string;
  EMAIL_PORT : option Z;
  EMAIL_USER : option string;
  EMAIL_PASS : option string;
  EMAIL_TO : option string;
  REAUTH_URL : option string;
  EXPIRED_EMAIL_RECIPIENT : option string
}.

(** [getRedisUrl()] *)
Definition getRedisUrl (c : EnvConfig) : string :=
  "rediss://default:" ++ REDIS_TOKEN c ++ "@" ++ REDIS_ADDR c.

(** [hasEmailConfig()] *)
Definition hasEmailConfig (c : EnvConfig) : bool :=
  truthy_string (EMAIL_HOST c) && truthy_string (EMAIL_USER c)
  && truthy_string (EMAIL_PASS c).

(** [hasEmailRecipient()] *)
Definition hasEmailRecipient (c : EnvConfig) : bool :=
  truthy_string (EMAIL_TO c).

(** [getEmailConfig()] *)
Definition getEmailConfig (c : EnvConfig) : result Email.EmailConfig :=
  if negb (hasEmailConfig c)
  then Throw (ValidationError "Email configuration is incomplete")
  else
    Ok {| Email.host := default "" (EMAIL_HOST c);
          Email.port := if truthy_number (EMAIL_PORT c)
                        then default 587 (EMAIL_PORT c) else 587;
          Email.secure := match EMAIL_PORT c with
                          | Some p => p =? 465
                          | None => false
                          end;
          Email.user := default "" (EMAIL_USER c);
          Email.pass := default "" (EMAIL_PASS c) |}.

(** [validate()] *)
Definition validate (c : EnvConfig) : result unit :=
  if String.eqb (REDIS_TOKEN c) "" || String.eqb (REDIS_ADDR c) ""
  then Throw (ValidationError "Redis configuration is incomplete")
  else if truthy_string (EMAIL_TO c) && negb (hasEmailConfig c)
  then Throw (ValidationError
                "Email recipient is set but email configuration is incomplete")
  else Ok tt.

(** [EMAIL_ENABLED] of [lib/email-utils.ts], as the module sets it when it is
    loaded and as [revalidateEmailConfig()] sets it again. *)
Definition email_enabled (c : EnvConfig) : bool :=
  hasEmailConfig c && hasEmailRecipient c.

(** The mail world of a configuration: what is left to the outside is the
    transport and the file system. *)
Definition mail_world (c : EnvConfig)
    (createTransport : Email.EmailConfig -> result unit)
    (writeFile : string -> list Byte.byte -> result unit)
    (sendMail : Email.EmailOptions -> result string)
    (unlink : string -> result unit) : Email.world :=
  {| Email.EMAIL_ENABLED := email_enabled c;
     Email.getEmailConfig := getEmailConfig c;
     Email.createTransport := createTransport;
     Email.writeFile := writeFile;
     Email.sendMail := sendMail;
     Email.unlink := unlink |}.

End Config.

(** ** The logger ([utils/logger.ts]): the entries kept in memory *)

Module Logger.

Inductive LogLevel : Type := debug | info | warn | error.

Record LogEntry : Type := mkEntry {
  level : LogLevel;
  message : string;
  timestamp : Z
}.

Definition maxLogs : nat := 1000.

Definition level_eqb (a b : LogLevel) : bool :=
  match a, b with
  | debug, debug | info, info | warn, warn | error, error => true
  | _, _ => false
  end.

(** [log(level, message, ...)]: the entry is pushed, and the oldest one is
    shifted out when the array has grown beyond [maxLogs]. *)
Definition log (entry : LogEntry) (logs : list LogEntry) : list LogEntry :=
  let pushed := (logs ++ [entry])%list in
  if (maxLogs <? length pushed)%nat then tail pushed else pushed.

(** [getLogs(level)] *)
Definition getLogs (wanted : option LogLevel) (logs : list LogEntry) : list LogEntry :=
  match wanted with
  | Some l => List.filter (fun e => level_eqb (level e) l) logs
  | None => logs
  end.

(** [clearLogs()] *)
Definition clearLogs (logs : list LogEntry) : list LogEntry := [].

(** A run of [log] calls. *)
Definition log_all (entries logs : list LogEntry) : list LogEntry :=
  fold_left (fun kept e => log e kept) entries logs.

End Logger.

(** ** The QR code helpers ([lib/qrcode-utils.ts]): validation *)

Module QrCode.
Import Js.

(** [validateUUID(uuid)] *)
Definition validateUUID (uuid : string) : result unit :=
  if blank uuid
  then Throw (ValidationError "UUID is required and must be a non-empty string")
  else if negb (String.eqb (trim uuid) "")
          && Wechat.all_chars Wechat.is_uuid_char (trim uuid)
  then Ok tt
  else Throw (ValidationError "UUID contains invalid characters").

End QrCode.

(** ** The callers: the scheduled job, the HTTP handler, the command line *)

Module Caller.
Import Js.

(** [reauthUrl] of the scheduled job. *)
Definition default_reauth_url : string := "http://localhost:3000".





(** How the command line ends: with an exit code, or never, the login loop
    still turning at the end of the script. *)
Inductive ending : Type :=
| Exit (code : Z)
| Waiting.

(** [new Date(ms).toISOString()] raises a [RangeError] when [ms] is beyond
    the range of dates. *)
Definition toISOString (ms : Z) : result unit :=
  if (-8640000000000000 <=? ms) && (ms <=? 8640000000000000)
  then Ok tt
  else Throw (Native "Invalid time value").

(** [main()] of [main.ts]; [None] when the cache holds a value outside the
    embedding. *)
Definition main
    (USER_NAME : option string) (script : list Login.attempt) (w : Login.world)
    (mail : Email.world) (info : Checkin.info_api) (submit : Checkin.api)
  : option ending :=
  match USER_NAME with
  | None => Some (Exit 1)
  | Some userName =>
      if blank userName then Some (Exit 1)
      else
        let trimmedUserName := trim userName in
        match Login.get_ensureLoggedIn script w with
        | None => None
        | Some (Login.Pending, _) => Some Waiting
        | Some (Login.Raised _, _) => Some (Exit 1)
        | Some (Login.Returned tokenInfo, _) =>
            let body : result unit :=
              (* [expire: tokenInfo.expire ? new Date(...).toISOString() : null] *)
              _ ← (if truthy_number (Token.expire tokenInfo)
                   then toISOString (default 0 (Token.expire tokenInfo))
                   else Ok tt);
              token ← Token.getToken tokenInfo;
              _ ← Checkin.getCheckInInfo info token;
              token ← Token.getToken tokenInfo;
              checkInResult ← Checkin.submitCheckIn submit token trimmedUserName None;
              fst (Email.sendCheckinResult mail checkInResult) in
            match body with
            | Ok _ => Some (Exit 0)
            | Throw _ => Some (Exit 1)
            end
        end
  end.

End Caller.

Import Js.

(** * Properties *)

(** ** The embedding at work *)

Section Examples.

Example parse_object_with_spaces :
  Json.parse ("{ " ++ Json.quoted "expire" ++ " : 17 ,"
                   ++ Json.quoted "tags" ++ ":[true, null , -2.5e3] }")
  = Some (Json.JObj [("expire", Json.JNum 17);
                     ("tags", Json.JArr [Json.JBool true; Json.JNull; Json.JReal "-2.5e3"])]).
Proof. vm_compute. reflexivity. Qed.

Example parse_rejects_trailing_comma : Json.parse "[1,]" = None.
Proof. vm_compute. reflexivity. Qed.

Example parse_rejects_leading_zero : Json.parse "017" = None.
Proof. vm_compute. reflexivity. Qed.

Example stringify_escapes :
  Json.stringify (Json.JStr (String "010"%char "a\b"))
  = Json.quoted "\na\\b".
Proof. vm_compute. reflexivity. Qed.

Example number_to_string_examples :
  Checkin.number_to_string (Checkin.mkNumber 117976543 6) = "117.976543"
  /\ Checkin.number_to_string (Checkin.mkNumber (-1500) 1) = "-150"
  /\ Checkin.number_to_string (Checkin.mkNumber 123 5) = "0.00123"
  /\ Checkin.number_to_string (Checkin.mkNumber 1 7) = "1e-7".
Proof. vm_compute. repeat split. Qed.

Example trim_example : trim (String "009"%char "  Alice  ") = "Alice".
Proof. vm_compute. reflexivity. Qed.

Example poll_answer_example :
  Wechat.wx_errcode "window.wx_errcode=405;window.wx_code='061abc';" = Some 405%N
  /\ Wechat.wx_code "window.wx_errcode=405;window.wx_code='061abc';" = Some "061abc"
  /\ Wechat.wx_code "window.wx_errcode=408;window.wx_code='';" = None.
Proof. vm_compute. repeat split. Qed.

End Examples.

(** ** Reading back what [JSON.stringify] writes *)

Section JsonFacts.
Import Json.
























End JsonFacts.

(** ** The fuel of [Json.parse] is enough *)

Section JsonFuel.
Import Json.

Lemma skip_ws_length (s : string) : (String.length (skip_ws s) <= String.length s)%nat.
Proof.
  induction s as [|c s IH]; cbn [skip_ws]; [lia|].
  destruct (is_ws c); cbn [String.length]; lia.
Qed.

Lemma closes_length (q : ascii) (s rest : string) :
  closes q s = Some rest -> (String.length rest < String.length s)%nat.
Proof.
  unfold closes. pose proof (skip_ws_length s) as Hs.
  destruct (skip_ws s) as [|c r]; [discriminate|].
  destruct (Ascii.eqb c q); [|discriminate].
  intros [= <-]. cbn [String.length] in Hs. lia.
Qed.

Lemma strip_prefix_length (p s rest : string) :
  strip_prefix p s = Some rest -> (String.length rest <= String.length s)%nat.
Proof.
  revert s. induction p as [|a p IH]; intros s; cbn [strip_prefix].
  - intros [= <-]. lia.
  - destruct s as [|b s]; [discriminate|].
    destruct (Ascii.eqb a b); [|discriminate].
    intros H. apply IH in H. cbn [String.length]. lia.
Qed.

Lemma expect_length (name : string) (v v' : json) (s rest : string) :
  expect name v s = Some (v', rest) -> (String.length rest <= String.length s)%nat.
Proof.
  unfold expect. destruct (strip_prefix name s) eqn:H; [|discriminate].
  intros [= _ <-]. eapply strip_prefix_length, H.
Qed.

Lemma parse_chars_length (s : string) :
  forall m t rest,
    parse_chars m s = Some (t, rest) -> (String.length rest < String.length s)%nat.
Proof.
  induction s as [|c s IH]; intros m t rest; cbn [parse_chars]; [discriminate|].
  cbn [String.length].
  assert (Hrec : forall m' (k : string -> string),
    match parse_chars m' s with
    | Some (t0, rest0) => Some (k t0, rest0)
    | None => None
    end = Some (t, rest) -> (String.length rest < S (String.length s))%nat).
  { intros m' k. destruct (parse_chars m' s) as [[t0 rest0]|] eqn:H; [|discriminate].
    intros [= _ <-]. apply IH in H. lia. }
  assert (Hjump : forall m', parse_chars m' s = Some (t, rest) ->
    (String.length rest < S (String.length s))%nat).
  { intros m' H. apply IH in H. lia. }
  destruct m as [| |todo acc].
  - destruct (code_of_ascii c =? 34)%N; [intros [= _ <-]; lia|].
    destruct (code_of_ascii c =? 92)%N; [apply Hjump|].
    destruct (code_of_ascii c <? 32)%N; [discriminate|].
    apply (Hrec Plain (String c)).
  - destruct (code_of_ascii c =? 117)%N; [apply Hjump|].
    repeat match goal with
    | |- (if ?b then _ else _) = _ -> _ => destruct b
    end;
      try discriminate;
      match goal with
      | |- context [ascii_of_code ?d] => apply (Hrec Plain (String (ascii_of_code d)))
      end.
  - destruct (hex_value c) as [d|]; [|discriminate].
    destruct todo as [|[|k]]; [discriminate | | apply Hjump].
    apply (Hrec Plain (fun t0 => utf8 (16 * acc + d) ++ t0)).
Qed.

Lemma span_digits_length (s : string) :
  (String.length (snd (span_digits s)) <= String.length s)%nat
  /\ (fst (span_digits s) <> EmptyString ->
      String.length (snd (span_digits s)) < String.length s)%nat.
Proof.
  induction s as [|c s [IH1 IH2]]; cbn [span_digits];
    [cbn [fst snd]; split; [lia | congruence]|].
  destruct (is_digit c); [|cbn [fst snd]; split; [lia | congruence]].
  destruct (span_digits s) as [ds rest]. cbn [fst snd String.length] in *.
  split; lia.
Qed.

Lemma parse_fraction_length (s frac rest : string) :
  parse_fraction s = Some (frac, rest) -> (String.length rest <= String.length s)%nat.
Proof.
  unfold parse_fraction. destruct s as [|c s]; [intros [= _ <-]; lia|].
  destruct (Ascii.eqb_spec c ".") as [->|Hc].
  - pose proof (span_digits_length s) as [H _].
    destruct (span_digits s) as [[|d ds] r]; [discriminate|].
    intros [= _ <-]. cbn [snd String.length] in *. lia.
  - destruct c as [[|] [|] [|] [|] [|] [|] [|] [|]];
      try (intros [= _ <-]; lia); congruence.
Qed.

Lemma parse_exponent_length (s ex rest : string) :
  parse_exponent s = Some (ex, rest) -> (String.length rest <= String.length s)%nat.
Proof.
  assert (Hafter : forall e r,
    (let '(sign, r1) :=
       match r with
       | String "+" r' => ("+", r')
       | String "-" r' => ("-", r')
       | _ => (EmptyString, r)
       end in
     match span_digits r1 with
     | (EmptyString, _) => None
     | (es, rest0) => Some (String e (sign ++ es), rest0)
     end) = Some (ex, rest) ->
    (String.length rest <= String.length r)%nat).
  { intros e r.
    assert (Hd : forall sign r1,
      match span_digits r1 with
      | (EmptyString, _) => None
      | (es, rest0) => Some (String e (sign ++ es), rest0)
      end = Some (ex, rest) -> (String.length rest <= String.length r1)%nat).
    { intros sign r1. pose proof (span_digits_length r1) as [H _].
      destruct (span_digits r1) as [[|d ds] r0]; [discriminate|].
      intros [= _ <-]. exact H. }
    destruct r as [|c r]; [apply Hd|].
    destruct c as [[|] [|] [|] [|] [|] [|] [|] [|]];
      try apply Hd; intros H; apply Hd in H; cbn [String.length]; lia. }
  unfold parse_exponent. destruct s as [|c s]; [intros [= _ <-]; lia|].
  destruct c as [[|] [|] [|] [|] [|] [|] [|] [|]];
    try (intros [= _ <-]; lia);
    intros H; apply Hafter in H; cbn [String.length]; lia.
Qed.

Lemma parse_number_length (s : string) (v : json) (rest : string) :
  parse_number s = Some (v, rest) -> (String.length rest < String.length s)%nat.
Proof.
  unfold parse_number.
  assert (Hbody : forall (neg : bool) (s1 : string),
    (let '(ds, s2) := span_digits s1 in
     match ds with
     | EmptyString => None
     | String "0" (String _ _) => None
     | _ =>
         match parse_fraction s2 with
         | None => None
         | Some (frac, s3) =>
             match parse_exponent s3 with
             | None => None
             | Some (ex, s4) =>
                 match frac, ex with
                 | EmptyString, EmptyString =>
                     let v := Z.of_N (digits_value ds) in
                     Some (JNum (if neg then - v else v), s4)
                 | _, _ =>
                     Some (JReal ((if neg then "-" else "") ++ ds ++ frac ++ ex), s4)
                 end
             end
         end
     end) = Some (v, rest) -> (String.length rest < String.length s1)%nat).
  { intros neg s1. pose proof (span_digits_length s1) as [_ Hlt].
    destruct (span_digits s1) as [ds s2]. cbn [fst snd] in Hlt.
    assert (Hgo :
      match parse_fraction s2 with
      | None => None
      | Some (frac, s3) =>
          match parse_exponent s3 with
          | None => None
          | Some (ex, s4) =>
              match frac, ex with
              | EmptyString, EmptyString =>
                  let v := Z.of_N (digits_value ds) in
                  Some (JNum (if neg then - v else v), s4)
              | _, _ =>
                  Some (JReal ((if neg then "-" else "") ++ ds ++ frac ++ ex), s4)
              end
          end
      end = Some (v, rest) -> ds <> EmptyString ->
      (String.length rest < String.length s1)%nat).
    { destruct (parse_fraction s2) as [[frac s3]|] eqn:Hf; [|discriminate].
      destruct (parse_exponent s3) as [[ex s4]|] eqn:He; [|discriminate].
      apply parse_fraction_length in Hf. apply parse_exponent_length in He.
      intros H Hds. specialize (Hlt Hds).
      assert (rest = s4) as -> by (destruct frac, ex; congruence). lia. }
    destruct ds as [|d ds]; [discriminate|].
    destruct ds as [|d' ds].
    - destruct d as [[|] [|] [|] [|] [|] [|] [|] [|]]; intros H; now apply Hgo.
    - destruct d as [[|] [|] [|] [|] [|] [|] [|] [|]];
        try discriminate; intros H; now apply Hgo. }
  destruct s as [|c s]; [apply (Hbody false)|].
  destruct c as [[|] [|] [|] [|] [|] [|] [|] [|]];
    try apply (Hbody false).
  intros H. apply (Hbody true) in H. cbn [String.length]. lia.
Qed.

Lemma parse_value_length_head (f : nat) (s : string) (v : json) (rest : string) :
  (forall r vs rest', parse_elements f r = Some (vs, rest') ->
     (String.length rest' < String.length r)%nat) ->
  (forall r ms rest', parse_members f r = Some (ms, rest') ->
     (String.length rest' < String.length r)%nat) ->
  parse_value (S f) s = Some (v, rest) ->
  (String.length rest < String.length s)%nat.
Proof.
  intros He Hm. cbn [parse_value]. pose proof (skip_ws_length s) as Hs.
  destruct (skip_ws s) as [|c r]; [discriminate|]. cbn [String.length] in Hs.
  destruct (Ascii.eqb c "n"); [intros H; apply expect_length in H; lia|].
  destruct (Ascii.eqb c "t"); [intros H; apply expect_length in H; lia|].
  destruct (Ascii.eqb c "f"); [intros H; apply expect_length in H; lia|].
  destruct (Ascii.eqb c dquote).
  { destruct (parse_chars Plain r) as [[t r']|] eqn:H; [|discriminate].
    intros [= _ <-]. apply parse_chars_length in H. lia. }
  destruct (Ascii.eqb c "[").
  { destruct (closes "]" r) as [r'|] eqn:H.
    - intros [= _ <-]. apply closes_length in H. lia.
    - destruct (parse_elements f r) as [[vs r']|] eqn:H'; [|discriminate].
      intros [= _ <-]. apply He in H'. lia. }
  destruct (Ascii.eqb c "{").
  { destruct (closes "}" r) as [r'|] eqn:H.
    - intros [= _ <-]. apply closes_length in H. lia.
    - destruct (parse_members f r) as [[ms r']|] eqn:H'; [|discriminate].
      intros [= _ <-]. apply Hm in H'. lia. }
  intros H. apply parse_number_length in H. cbn [String.length] in H. lia.
Qed.

(** What a successful reading consumed bounds the fuel it needs: twice the
    number of characters read. *)
Lemma parse_fuel (f : nat) :
  (forall s v rest,
     parse_value f s = Some (v, rest) ->
     (String.length rest < String.length s)%nat
     /\ forall g, (2 * (String.length s - String.length rest) <= g)%nat ->
                  parse_value g s = Some (v, rest))
  /\ (forall s vs rest,
        parse_elements f s = Some (vs, rest) ->
        (String.length rest + 2 <= String.length s)%nat
        /\ forall g, (2 * (String.length s - String.length rest) - 1 <= g)%nat ->
                     parse_elements g s = Some (vs, rest))
  /\ (forall s ms rest,
        parse_members f s = Some (ms, rest) ->
        (String.length rest + 2 <= String.length s)%nat
        /\ forall g, (2 * (String.length s - String.length rest) - 1 <= g)%nat ->
                     parse_members g s = Some (ms, rest)).
Proof.
  induction f as [|f (IHv & IHe & IHm)]; [repeat split; discriminate|].
  split; [|split].
  - (* a value *)
    intros s v rest H.
    assert (Hlen : (String.length rest < String.length s)%nat).
    { revert H. apply parse_value_length_head.
      - intros r vs rest' Hr. apply IHe in Hr. lia.
      - intros r ms rest' Hr. apply IHm in Hr. lia. }
    split; [exact Hlen|]. intros g Hg.
    destruct g as [|g]; [lia|].
    revert H. cbn [parse_value]. pose proof (skip_ws_length s) as Hs.
    destruct (skip_ws s) as [|c r]; [discriminate|]. cbn [String.length] in Hs.
    destruct (Ascii.eqb c "n"); [trivial|].
    destruct (Ascii.eqb c "t"); [trivial|].
    destruct (Ascii.eqb c "f"); [trivial|].
    destruct (Ascii.eqb c dquote); [trivial|].
    destruct (Ascii.eqb c "[").
    { destruct (closes "]" r); [trivial|].
      destruct (parse_elements f r) as [[vs r']|] eqn:H'; [|discriminate].
      intros [= <- <-]. apply IHe in H' as [Hl Hfuel].
      rewrite Hfuel by lia. reflexivity. }
    destruct (Ascii.eqb c "{"); [|trivial].
    destruct (closes "}" r); [trivial|].
    destruct (parse_members f r) as [[ms r']|] eqn:H'; [|discriminate].
    intros [= <- <-]. apply IHm in H' as [Hl Hfuel].
    rewrite Hfuel by lia. reflexivity.
  - (* the elements of an array *)
    intros s vs rest. cbn [parse_elements].
    destruct (parse_value f s) as [[v r]|] eqn:Hv; [|discriminate].
    apply IHv in Hv as [Hlv Hfv].
    destruct (closes "," r) as [r'|] eqn:Hc.
    + pose proof (closes_length _ _ _ Hc) as Hlc.
      destruct (parse_elements f r') as [[vs' rest']|] eqn:He; [|discriminate].
      intros [= <- <-]. apply IHe in He as [Hle Hfe].
      split; [lia|]. intros g Hg. destruct g as [|g]; [lia|].
      cbn [parse_elements]. rewrite Hfv, Hc, Hfe by lia. reflexivity.
    + destruct (closes "]" r) as [rest'|] eqn:Hc'; [|discriminate].
      pose proof (closes_length _ _ _ Hc') as Hlc.
      intros [= <- <-]. split; [lia|]. intros g Hg. destruct g as [|g]; [lia|].
      cbn [parse_elements]. rewrite Hfv, Hc, Hc' by lia. reflexivity.
  - (* the members of an object *)
    intros s ms rest. cbn [parse_members].
    destruct (closes dquote s) as [r|] eqn:Hq; [|discriminate].
    pose proof (closes_length _ _ _ Hq) as Hlq.
    destruct (parse_chars Plain r) as [[k r1]|] eqn:Hk; [|discriminate].
    pose proof (parse_chars_length _ _ _ _ Hk) as Hlk.
    destruct (closes ":" r1) as [r2|] eqn:Hcolon; [|discriminate].
    pose proof (closes_length _ _ _ Hcolon) as Hlcolon.
    destruct (parse_value f r2) as [[v r3]|] eqn:Hv; [|discriminate].
    apply IHv in Hv as [Hlv Hfv].
    destruct (closes "," r3) as [r4|] eqn:Hc.
    + pose proof (closes_length _ _ _ Hc) as Hlc.
      destruct (parse_members f r4) as [[ms' rest']|] eqn:Hm; [|discriminate].
      intros [= <- <-]. apply IHm in Hm as [Hlm Hfm].
      split; [lia|]. intros g Hg. destruct g as [|g]; [lia|].
      cbn [parse_members]. rewrite Hq, Hk, Hcolon, Hfv, Hc, Hfm by lia. reflexivity.
    + destruct (closes "}" r3) as [rest'|] eqn:Hc'; [|discriminate].
      pose proof (closes_length _ _ _ Hc') as Hlc.
      intros [= <- <-]. split; [lia|]. intros g Hg. destruct g as [|g]; [lia|].
      cbn [parse_members]. rewrite Hq, Hk, Hcolon, Hfv, Hc, Hc' by lia. reflexivity.
Qed.

(** [Json.parse] fails only on a text that no amount of fuel reads as one
    value followed by white space. *)
Lemma parse_fuel_enough (text : string) :
  Json.parse text = None <->
  forall f v rest, parse_value f text = Some (v, rest) -> skip_ws rest <> EmptyString.
Proof.
  unfold parse. split.
  - intros Hnone f v rest Hf.
    destruct (proj1 (parse_fuel f) _ _ _ Hf) as [Hlen Hfuel].
    rewrite Hfuel in Hnone by lia.
    destruct (skip_ws rest); [discriminate | discriminate].
  - intros Hall.
    destruct (parse_value _ text) as [[v rest]|] eqn:H; [|reflexivity].
    apply Hall in H. destruct (skip_ws rest); [congruence | reflexivity].
Qed.

End JsonFuel.

(** ** The credential *)

Section TokenFacts.
Import Token.

Lemma eqb_empty (s : string) : String.eqb s "" = false <-> s <> "".
Proof.
  destruct (String.eqb_spec s ""); split; congruence.
Qed.

Lemma truthy_string_spec (v : option string) :
  truthy_string v = true <-> exists s, v = Some s /\ s <> "".
Proof.
  destruct v as [s|]; cbn.
  - rewrite negb_true_iff, eqb_empty. split; [eauto | now intros (? & [= <-] & ?)].
  - split; [discriminate | now intros (? & ? & ?)].
Qed.






Lemma get_del (key : string) (r : Redis.client) :
  Redis.get key (Redis.del key r) = None.
Proof. unfold Redis.get, Redis.del. cbn. now rewrite lookup_delete_eq. Qed.





(** C2, as the code has it: a stored value that is not empty and that
    [JSON.parse] rejects makes [fromRedis] return the empty credential,
    without raising, and the entry is removed from the store. *)
Theorem fromRedis_corrupted (key json : string) (r : Redis.client) :
  Redis.connected r = true ->
  Redis.get key r = Some json ->
  json <> "" ->
  Json.parse json = None ->
  fromRedis key r = Some (Ok empty, Redis.del key r)
  /\ Redis.get key (Redis.del key r) = None.
Proof.
  intros Hc Hget Hne Hparse. split; [|apply get_del].
  unfold fromRedis, Redis.getClient. rewrite Hc, Hget.
  apply eqb_empty in Hne. now rewrite Hne, Hparse.
Qed.

Lemma fromRedis_corrupted_witness :
  let r := Redis.mkClient true {[ "token_info" := Redis.mkEntry "{token:" 3600 ]} in
  fromRedis "token_info" r = Some (Ok empty, Redis.del "token_info" r)
  /\ Redis.get "token_info" (Redis.del "token_info" r) = None.
Proof.
  intros r. apply (fromRedis_corrupted "token_info" "{token:" r).
  - reflexivity.
  - vm_compute. reflexivity.
  - discriminate.
  - vm_compute. reflexivity.
Defined.

(** C2 as stated fails on the empty string: [JSON.parse] rejects it, it is
    read as no credential, and it stays in the store. *)
Lemma fromRedis_empty_value_counterexample :
  let r := Redis.mkClient true {[ "token_info" := Redis.mkEntry "" 3600 ]} in
  Redis.get "token_info" r = Some ""
  /\ Json.parse "" = None
  /\ exists r', fromRedis "token_info" r = Some (Ok empty, r')
       /\ Redis.get "token_info" r' = Some "".
Proof.
  intros r. split; [|split].
  - vm_compute. reflexivity.
  - vm_compute. reflexivity.
  - exists r. split; vm_compute; reflexivity.
Qed.

(** A stored [null] is JSON, and reading its [token] raises: the load fails
    with a [RedisError] and the entry stays. *)
Lemma fromRedis_null_raises :
  let r := Redis.mkClient true {[ "token_info" := Redis.mkEntry "null" 3600 ]} in
  fromRedis "token_info" r
  = Some (Throw (RedisError "Failed to load token from Redis"), r).
Proof. vm_compute. reflexivity. Qed.






End TokenFacts.

(** ** The polling loop *)

Section WechatFacts.
Import Wechat.

(** One turn of the loop, by the signal of the answer. *)
Lemma poll_loop_step (status : nat -> response) (remaining polls : nat) (waited : Z) :
  poll_loop status (S remaining) polls waited =
  match signal_of (status (S polls)) with
  | Scanned c => mkPolled (Some c) (S polls) waited
  | Expired => mkPolled None (S polls) waited
  | StillWaiting =>
      poll_loop status remaining (S polls) (waited + delay (status (S polls)))
  end.
Proof.
  cbn [poll_loop]. unfold signal_of, delay, is_code.
  destruct (status (S polls)) as [text| |e]; try reflexivity.
  destruct (wx_errcode text) as [n|]; [|reflexivity].
  destruct (N.eqb_spec n 405) as [->|H405].
  - destruct (wx_code text); reflexivity.
  - destruct (N.eqb_spec n 404) as [->|H404]; [destruct (wx_code text); reflexivity|].
    destruct (N.eqb_spec n 403); destruct (wx_code text); reflexivity.
Qed.

(** Where the loop stops: at the first answer that is not "still waiting",
    or when no poll remains. *)
Lemma poll_loop_spec (status : nat -> response) (remaining : nat) :
  forall (polls : nat) (waited : Z),
    let p := poll_loop status remaining polls waited in
    (polls <= requests p <= polls + remaining)%nat
    /\ (forall j, (polls < j < requests p)%nat -> signal_of (status j) = StillWaiting)
    /\ (remaining = O -> code p = None)
    /\ (remaining <> O ->
        (polls < requests p)%nat
        /\ match signal_of (status (requests p)) with
           | Scanned c => code p = Some c
           | Expired => code p = None
           | StillWaiting => code p = None /\ requests p = (polls + remaining)%nat
           end).
Proof.
  induction remaining as [|remaining IH]; intros polls waited p.
  - subst p. cbn. repeat split; lia || congruence.
  - subst p. rewrite poll_loop_step.
    destruct (signal_of (status (S polls))) eqn:Hs.
    + cbn [requests code]. rewrite Hs. repeat split; lia || discriminate.
    + cbn [requests code]. rewrite Hs. repeat split; lia || discriminate.
    + specialize (IH (S polls) (waited + delay (status (S polls)))).
      cbv zeta in IH. destruct IH as (Hle & Hwait & Hzero & Hpos).
      split; [lia|]. split; [|split; [discriminate|]].
      * intros j Hj. destruct (Nat.eq_dec j (S polls)) as [->|Hne]; [exact Hs|].
        apply Hwait. lia.
      * intros _. split; [lia|].
        destruct remaining as [|remaining'].
        -- cbn [poll_loop requests code]. rewrite Hs. split; [reflexivity | lia].
        -- destruct Hpos as [Hlt Hend]; [discriminate|].
           destruct (signal_of (status (requests _))); try exact Hend.
           split; [apply Hend | lia].
Qed.



(** C4: three answers "still waiting" and then "scanned" with a code make
    [pollWxCode] return that code after exactly 4 status requests; "expired"
    as the first answer makes it return [null] after exactly 1. *)
Theorem pollWxCode_scanned_fourth_expired_first
    (uuid wx : string) (status : nat -> response) :
  uuid <> "" ->
  ((forall k, (1 <= k <= 3)%nat -> signal_of (status k) = StillWaiting) ->
   signal_of (status 4%nat) = Scanned wx ->
   exists p, pollWxCode uuid status = Ok p
     /\ code p = Some wx /\ requests p = 4%nat)
  /\ (signal_of (status 1%nat) = Expired ->
      exists p, pollWxCode uuid status = Ok p
        /\ code p = None /\ requests p = 1%nat).
Proof.
  intros Hu. unfold pollWxCode, maxPolls. apply eqb_empty in Hu. rewrite Hu.
  split.
  - intros Hwait Hscan. eexists. split; [reflexivity|].
    rewrite poll_loop_step, (Hwait 1%nat) by lia.
    rewrite poll_loop_step, (Hwait 2%nat) by lia.
    rewrite poll_loop_step, (Hwait 3%nat) by lia.
    rewrite poll_loop_step, Hscan. split; reflexivity.
  - intros Hexp. eexists. split; [reflexivity|].
    rewrite poll_loop_step, Hexp. split; reflexivity.
Qed.

Lemma pollWxCode_scanned_fourth_expired_first_witness :
  (exists p,
     pollWxCode "061abc"
       (fun k => if (k <=? 3)%nat then waiting_answer else scanned_answer) = Ok p
     /\ code p = Some "abc" /\ requests p = 4%nat)
  /\ (exists p,
        pollWxCode "061abc" (fun _ => expired_answer) = Ok p
        /\ code p = None /\ requests p = 1%nat).
Proof.
  split.
  - apply (pollWxCode_scanned_fourth_expired_first "061abc" "abc"
             (fun k => if (k <=? 3)%nat then waiting_answer else scanned_answer)).
    + discriminate.
    + intros k Hk.
      assert (k = 1 \/ k = 2 \/ k = 3)%nat as [->|[->| ->]] by lia;
        vm_compute; reflexivity.
    + vm_compute. reflexivity.
  - apply (pollWxCode_scanned_fourth_expired_first "061abc" "abc"
             (fun _ => expired_answer)).
    + discriminate.
    + vm_compute. reflexivity.
Defined.

End WechatFacts.

(** ** The check-in payload *)

Section CheckinFacts.
Import Checkin.

Lemma length_zero_empty (s : string) : (String.length s =? 0)%nat = false <-> s <> "".
Proof. destruct s; cbn; split; congruence. Qed.





End CheckinFacts.

(** ** The scheduler *)

Section SchedulerFacts.
Import Scheduler.

Lemma idle_not_running (idle : list CronJob) :
  Forall (fun j => running j = false) idle ->
  filter (fun j => running j = true) idle = [].
Proof.
  induction 1 as [|j idle Hj _ IH]; [reflexivity|].
  rewrite filter_cons, IH. destruct (decide (running j = true)); congruence.
Qed.

Lemma well_formed_initial : well_formed initial.
Proof. exists []. split; [constructor | left; split; reflexivity]. Qed.

Lemma well_formed_start (s : state) : well_formed s -> well_formed (startScheduler s).
Proof.
  intros (idle & Hidle & [[Hnone Hjobs] | (j & Hjob & Hrun & Hjobs)]).
  - exists idle. split; [exact Hidle|]. right.
    exists (mkJob DAILY_CHECKIN_TIME TIMEZONE true).
    unfold startScheduler. rewrite Hnone, Hjobs. cbn [checkinJob jobs].
    repeat split.
    replace (length idle) with (length idle + 0)%nat at 1 by lia.
    now rewrite alter_app_r.
  - exists idle. split; [exact Hidle|]. right. exists j.
    unfold startScheduler. rewrite Hjob. auto.
Qed.

Lemma well_formed_stop (s : state) : well_formed s -> well_formed (stopScheduler s).
Proof.
  intros (idle & Hidle & [[Hnone Hjobs] | (j & Hjob & Hrun & Hjobs)]).
  - exists idle. split; [exact Hidle|]. left.
    unfold stopScheduler. rewrite Hnone. auto.
  - exists (idle ++ [set_running false j])%list. split.
    + apply Forall_app. split; [exact Hidle | repeat constructor].
    + left. unfold stopScheduler. rewrite Hjob, Hjobs. cbn [checkinJob jobs].
      split; [reflexivity|].
      replace (length idle) with (length idle + 0)%nat at 1 by lia.
      now rewrite alter_app_r.
Qed.

Lemma well_formed_run (calls : list call) :
  forall s, well_formed s -> well_formed (run calls s).
Proof.
  induction calls as [|c calls IH]; intros s Hs; [exact Hs|].
  cbn [run fold_left]. apply IH.
  destruct c; [now apply well_formed_start | now apply well_formed_stop].
Qed.

Lemma well_formed_running_jobs (s : state) :
  well_formed s -> (running_jobs s <= 1)%nat.
Proof.
  intros (idle & Hidle & [[_ Hjobs] | (j & _ & Hrun & Hjobs)]);
    unfold running_jobs; rewrite Hjobs.
  - rewrite idle_not_running by exact Hidle. cbn. lia.
  - rewrite filter_app, idle_not_running by exact Hidle.
    rewrite filter_cons, filter_nil. destruct (decide (running j = true)); cbn; lia.
Qed.

(** C6: [startScheduler] while a job is held changes nothing, so no second
    job is constructed: started twice, the scheduler is as after the first
    start, and whatever the sequence of starts and stops, at most one job
    runs.  After [stopScheduler], [getSchedulerStatus] reports [isRunning]
    false and no [nextCheckinDate], whatever the library would answer. *)
Theorem scheduler_start_once_stop_reports_stopped
    (s : state) (nextDate : nat -> result (option Z)) :
  (forall job, checkinJob s = Some job -> startScheduler s = s)
  /\ startScheduler (startScheduler s) = startScheduler s
  /\ jobs (startScheduler (startScheduler initial))
     = [mkJob DAILY_CHECKIN_TIME TIMEZONE true]
  /\ (forall calls, (running_jobs (run calls initial) <= 1)%nat)
  /\ fst (getSchedulerStatus nextDate (stopScheduler s)) = mkStatus false false None
  /\ checkinJob (stopScheduler s) = None.
Proof.
  repeat split.
  - intros job Hjob. unfold startScheduler. now rewrite Hjob.
  - unfold startScheduler at 1.
    destruct (checkinJob (startScheduler s)) eqn:Hjob; [reflexivity|].
    unfold startScheduler in Hjob. destruct (checkinJob s) eqn:Hs; cbn in Hjob; congruence.
  - intros calls. apply well_formed_running_jobs, well_formed_run, well_formed_initial.
  - unfold stopScheduler, getSchedulerStatus.
    destruct (checkinJob s) eqn:Hs; cbn; [reflexivity | now rewrite Hs].
  - unfold stopScheduler. destruct (checkinJob s) eqn:Hs; [reflexivity | exact Hs].
Qed.

Lemma scheduler_start_once_stop_reports_stopped_witness :
  startScheduler (startScheduler initial) = startScheduler initial.
Proof.
  apply (proj1 (scheduler_start_once_stop_reports_stopped (startScheduler initial)
                  (fun _ => Ok (Some 0))) 0%nat).
  reflexivity.
Defined.

End SchedulerFacts.

(** ** The notifier *)

Section EmailFacts.
Import Email.




End EmailFacts.

(** ** The credential manager *)

Section LoginFacts.
Import Token Login.






End LoginFacts.

(** ** The accessors of the credential, and the cache as [fromRedis] leaves it *)

Section TokenAccessFacts.
Import Token.

Lemma Ok_injective {A : Type} (a b : A) : Ok a = Ok b -> a = b.
Proof. now intros [= ->]. Qed.






End TokenAccessFacts.

(** ** The check-in calls: what is rejected before any request, and what can
    be raised *)

Section CheckinCallFacts.
Import Checkin.

Lemma blank_false (s : string) : blank s = false <-> trim s <> "".
Proof.
  unfold blank. split.
  - intros H. apply orb_false_elim in H as [_ H]. now apply length_zero_empty.
  - intros H. apply orb_false_intro.
    + apply eqb_empty. intros ->. now apply H.
    + now apply length_zero_empty.
Qed.

Lemma validateLocation_throw (location : Location) (e : error) :
  validateLocation location = Throw e -> exists m, e = ValidationError m.
Proof.
  unfold validateLocation.
  repeat match goal with
         | |- context [if ?b then _ else _] => destruct b
         end; intros H; inversion H; eauto.
Qed.

Lemma THREAD_ID_positive : (THREAD_ID =? 0) || (THREAD_ID <=? 0) = false.
Proof. reflexivity. Qed.




End CheckinCallFacts.

(** ** The HTTP wrapper *)

Section HttpFacts.
Import Http.

Lemma request_throw (fetch : fetch) (url : string) (options : RequestOptions)
    (token : option string) (e : error) :
  request fetch url options token = Throw e -> exists m, e = NetworkError m.
Proof.
  unfold request.
  destruct (fetch url _) as [response|e'].
  - cbn. destruct (ok response); cbn.
    + destruct (text response) as [t|e']; cbn.
      * discriminate.
      * intros H. inversion H. destruct e'; cbn; eauto.
    + intros H. inversion H. eauto.
  - cbn. intros H. inversion H. destruct e'; cbn; eauto.
Qed.



Lemma submitCheckIn_over_http_throw
    (fetch : fetch) (token signature : string) (location : option Checkin.Location)
    (e : error) :
  Checkin.submitCheckIn (api fetch) token signature location = Throw e ->
  (exists m, e = ValidationError m) \/ (exists m, e = NetworkError m).
Proof.
  unfold Checkin.submitCheckIn.
  destruct (String.eqb token ""); [intros H; inversion H; eauto|].
  destruct (blank signature); [intros H; inversion H; eauto|].
  destruct (Checkin.validateLocation _) as [[]|e'] eqn:Hloc.
  - cbn. unfold api.
    destruct (request _ _ _ _) as [|e'] eqn:Hreq; [discriminate|].
    destruct (request_throw _ _ _ _ _ Hreq) as [m ->].
    cbn. intros H. inversion H. eauto.
  - cbn. intros H. inversion H. subst.
    left. exact (validateLocation_throw _ _ Hloc).
Qed.

Lemma getCheckInInfo_over_http_throw (fetch : fetch) (token : string) (e : error) :
  Checkin.getCheckInInfo (info_api fetch) token = Throw e ->
  (exists m, e = ValidationError m) \/ (exists m, e = NetworkError m).
Proof.
  unfold Checkin.getCheckInInfo. rewrite THREAD_ID_positive.
  destruct (String.eqb token ""); [intros H; inversion H; eauto|].
  unfold info_api.
  destruct (request _ _ _ _) as [|e'] eqn:Hreq; [discriminate|].
  destruct (request_throw _ _ _ _ _ Hreq) as [m ->].
  cbn. intros H. inversion H. eauto.
Qed.

(** X6: over [request], the check-in calls raise a [ValidationError] or a
    [NetworkError] and nothing else, whatever the network does: the status
    of an answer that is not [ok], 401 included, reaches the caller as a
    [NetworkError]. *)
Theorem checkin_over_http_errors
    (fetch : fetch) (token signature : string) (location : option Checkin.Location)
    (e : error) :
  Checkin.submitCheckIn (api fetch) token signature location = Throw e
  \/ Checkin.getCheckInInfo (info_api fetch) token = Throw e ->
  (exists m, e = ValidationError m) \/ (exists m, e = NetworkError m).
Proof.
  intros [H | H].
  - exact (submitCheckIn_over_http_throw _ _ _ _ _ H).
  - exact (getCheckInInfo_over_http_throw _ _ _ H).
Qed.

Lemma checkin_over_http_errors_witness :
  (exists m, NetworkError "HTTP request failed: 401 Unauthorized" = ValidationError m)
  \/ (exists m, NetworkError "HTTP request failed: 401 Unauthorized" = NetworkError m).
Proof.
  apply (checkin_over_http_errors
           (fun _ _ => Ok (mkResponse false 401 "Unauthorized" (Ok "")))
           "Bearer t" "Alice" None).
  left. vm_compute. reflexivity.
Defined.

End HttpFacts.

(** ** The login page and the polls: the shape of what comes back *)

Section WechatShapeFacts.
Import Wechat.

Lemma span_all_chars (cls : ascii -> bool) (s : string) :
  all_chars cls (fst (span cls s)) = true.
Proof.
  induction s as [|c s IH]; [reflexivity|].
  cbn [span]. destruct (cls c) eqn:Hc; [|reflexivity].
  destruct (span cls s) as [run rest]. cbn [fst all_chars] in *.
  now rewrite Hc, IH.
Qed.

Lemma match_run_some (lit : string) (cls : ascii -> bool) (text run : string) :
  match_run lit cls text = Some run ->
  run <> "" /\ all_chars cls run = true.
Proof.
  induction text as [|c text IH].
  - cbn [match_run]. destruct (strip_prefix lit "") as [after|]; [|discriminate].
    pose proof (span_all_chars cls after) as Hall.
    destruct (span cls after) as [[|d r] rest]; [discriminate|].
    intros H. injection H as <-. split; [discriminate | exact Hall].
  - cbn [match_run].
    destruct (strip_prefix lit (String c text)) as [after|]; [|exact IH].
    pose proof (span_all_chars cls after) as Hall.
    destruct (span cls after) as [[|d r] rest]; [exact IH|].
    intros H. injection H as <-. split; [discriminate | exact Hall].
Qed.

Lemma match_until_some (lit : string) (q : ascii) (text run : string) :
  match_until lit q text = Some run ->
  run <> "" /\ all_chars (fun c => negb (Ascii.eqb c q)) run = true.
Proof.
  induction text as [|c text IH].
  - cbn [match_until]. destruct (strip_prefix lit "") as [after|]; [|discriminate].
    pose proof (span_all_chars (fun c => negb (Ascii.eqb c q)) after) as Hall.
    destruct (span _ after) as [[|d r] [|x rest]]; try discriminate.
    intros H. injection H as <-. split; [discriminate | exact Hall].
  - cbn [match_until].
    destruct (strip_prefix lit (String c text)) as [after|]; [|exact IH].
    pose proof (span_all_chars (fun c => negb (Ascii.eqb c q)) after) as Hall.
    destruct (span _ after) as [[|d r] [|x rest]]; try exact IH.
    intros H. injection H as <-. split; [discriminate | exact Hall].
Qed.

Lemma uuid_char_not_space (c : ascii) : is_uuid_char c = true -> is_space c = false.
Proof.
  destruct c as [[|] [|] [|] [|] [|] [|] [|] [|]];
    vm_compute; intros H; reflexivity || discriminate H.
Qed.

Lemma trim_end_no_space (s : string) :
  all_chars (fun c => negb (is_space c)) s = true -> trim_end s = s.
Proof.
  induction s as [|c s IH]; [reflexivity|].
  cbn [all_chars trim_end]. intros H. apply andb_prop in H as [Hc Hs].
  rewrite (IH Hs). destruct s; [|reflexivity].
  apply negb_true_iff in Hc. now rewrite Hc.
Qed.

Lemma trim_no_space (s : string) :
  all_chars (fun c => negb (is_space c)) s = true -> trim s = s.
Proof.
  intros H. unfold trim.
  replace (trim_start s) with s; [now apply trim_end_no_space|].
  destruct s as [|c s]; [reflexivity|].
  cbn [all_chars] in H. apply andb_prop in H as [Hc _].
  apply negb_true_iff in Hc. cbn [trim_start]. now rewrite Hc.
Qed.

Lemma all_chars_impl (p q : ascii -> bool) (s : string) :
  (forall c, p c = true -> q c = true) ->
  all_chars p s = true -> all_chars q s = true.
Proof.
  intros Hpq. induction s as [|c s IH]; [reflexivity|].
  cbn [all_chars]. intros H. apply andb_prop in H as [Hc Hs].
  now rewrite (Hpq c Hc), (IH Hs).
Qed.

Lemma fetchUUID_ok (page : response) (uuid : string) :
  fetchUUID page = Ok uuid ->
  uuid <> "" /\ all_chars is_uuid_char uuid = true.
Proof.
  unfold fetchUUID. destruct page as [html| |e]; cbn; try discriminate.
  destruct (match_run "uuid=" is_uuid_char html) as [run|] eqn:Hrun; cbn;
    [|discriminate].
  intros H. injection H as <-. exact (match_run_some _ _ _ _ Hrun).
Qed.

(** X7: a UUID that [fetchUUID] returns is never empty and is made of
    letters, digits, [_] and [-] only, so that [validateUUID] accepts it and
    [pollWxCode] does not raise on it; and an error of [fetchUUID] is always
    of the application's classes. *)
Theorem fetchUUID_returns_valid_uuid (page : response) :
  (forall uuid,
     fetchUUID page = Ok uuid ->
     uuid <> ""
     /\ all_chars is_uuid_char uuid = true
     /\ QrCode.validateUUID uuid = Ok tt
     /\ forall status, exists p, pollWxCode uuid status = Ok p)
  /\ (forall e, fetchUUID page = Throw e -> instanceof_AppError e = true).
Proof.
  split.
  - intros uuid H. destruct (fetchUUID_ok _ _ H) as [Hne Hall].
    assert (trim uuid = uuid) as Htrim.
    { apply trim_no_space. revert Hall. apply all_chars_impl.
      intros c Hc. now rewrite (uuid_char_not_space c Hc). }
    repeat split; try assumption.
    + unfold QrCode.validateUUID.
      replace (blank uuid) with false
        by (symmetry; apply blank_false; now rewrite Htrim).
      rewrite Htrim, Hall.
      now replace (String.eqb uuid "") with false by (symmetry; now apply eqb_empty).
    + intros status. unfold pollWxCode.
      replace (String.eqb uuid "") with false by (symmetry; now apply eqb_empty).
      eauto.
  - intros e. unfold fetchUUID. destruct page as [html| |e']; cbn.
    + destruct (match_run _ _ html); cbn; [discriminate|].
      intros H. now inversion H.
    + intros H. now inversion H.
    + intros H. inversion H. now destruct e'.
Qed.

Lemma fetchUUID_returns_valid_uuid_witness :
  QrCode.validateUUID "061abc-D_9" = Ok tt.
Proof.
  apply (proj1 (fetchUUID_returns_valid_uuid
                  (Body "<img src=/connect/qrcode?uuid=061abc-D_9&x=1>")) "061abc-D_9").
  vm_compute. reflexivity.
Defined.

Lemma delay_bounds (answer : response) : 1000 <= delay answer <= 2000.
Proof. destruct answer; cbn; lia. Qed.

Lemma poll_loop_waited (status : nat -> response) (remaining : nat) :
  forall (polls : nat) (waited : Z),
    let p := poll_loop status remaining polls waited in
    waited + 1000 * (Z.of_nat (requests p) - Z.of_nat polls - 1) <= Wechat.waited p
    /\ Wechat.waited p <= waited + 2000 * (Z.of_nat (requests p) - Z.of_nat polls)
    /\ (polls <= requests p)%nat
    /\ (code p <> None ->
        Wechat.waited p <= waited + 2000 * (Z.of_nat (requests p) - Z.of_nat polls - 1)).
Proof.
  induction remaining as [|remaining IH]; intros polls waited.
  - cbn. repeat split; try lia; try congruence.
  - cbn zeta. rewrite poll_loop_step.
    destruct (signal_of (status (S polls))).
    + cbn. repeat split; lia.
    + cbn. repeat split; try lia; try congruence.
    + specialize (IH (S polls) (waited + delay (status (S polls)))).
      cbn zeta in IH. destruct IH as (Hlo & Hhi & Hle & Hcode).
      pose proof (delay_bounds (status (S polls))).
      repeat split; try lia. intros Hc. specialize (Hcode Hc). lia.
Qed.

(** X8: the time [pollWxCode] spends waiting.  Each answer before the last
    one costs one second, or two after a transport failure, and nothing is
    waited after the last: with [n] requests made, the wait is between
    [n - 1] seconds and [2 n] seconds, which is at most 600 seconds, and at
    most 598 when a code is returned. *)
Theorem pollWxCode_waiting_time (uuid : string) (status : nat -> response) (p : polled) :
  pollWxCode uuid status = Ok p ->
  1000 * (Z.of_nat (requests p) - 1) <= waited p <= 2000 * Z.of_nat (requests p)
  /\ waited p <= 600000
  /\ (code p <> None ->
      waited p <= 2000 * (Z.of_nat (requests p) - 1) /\ waited p <= 598000).
Proof.
  unfold pollWxCode. destruct (String.eqb uuid ""); [discriminate|].
  intros H. apply Ok_injective in H. subst p.
  pose proof (poll_loop_waited status maxPolls 0 0) as Hwaited.
  pose proof (poll_loop_spec status maxPolls 0 0) as Hspec.
  cbv zeta in Hwaited, Hspec.
  remember (poll_loop status maxPolls 0 0) as p eqn:Hp. clear Hp.
  destruct Hwaited as (Hlo & Hhi & _ & Hcode). destruct Hspec as ([_ Hmax] & _).
  unfold maxPolls in Hmax.
  split; [lia|]. split; [lia|].
  intros Hc. specialize (Hcode Hc). lia.
Qed.

Lemma pollWxCode_waiting_time_witness :
  let p := mkPolled (Some "abc") 2 2000 in
  1000 * (Z.of_nat (requests p) - 1) <= waited p <= 2000 * Z.of_nat (requests p).
Proof.
  intros p.
  apply (pollWxCode_waiting_time "061abc"
           (fun k => if (k =? 1)%nat then Failed (Native "timeout") else scanned_answer) p).
  vm_compute. reflexivity.
Defined.

Lemma signal_scanned (answer : response) (c : string) :
  signal_of answer = Scanned c ->
  exists text, answer = Body text /\ wx_code text = Some c.
Proof.
  destruct answer as [text| |e]; unfold signal_of; try discriminate.
  destruct (wx_errcode text) as [n|]; [|discriminate].
  destruct (wx_code text) as [c'|] eqn:Hwx.
  - destruct (n =? 405)%N; [|destruct (n =? 403)%N; discriminate].
    intros H. injection H as <-. eauto.
  - destruct (n =? 403)%N; discriminate.
Qed.

(** X9: a code that [pollWxCode] returns is never empty and holds no quote:
    it is what the last answer has between quotes after [wx_code=]. *)
Theorem pollWxCode_code_shape
    (uuid : string) (status : nat -> response) (p : polled) (wxCode : string) :
  pollWxCode uuid status = Ok p ->
  code p = Some wxCode ->
  wxCode <> ""
  /\ all_chars (fun c => negb (Ascii.eqb c "'")) wxCode = true
  /\ exists text, status (requests p) = Body text /\ wx_code text = Some wxCode.
Proof.
  unfold pollWxCode. destruct (String.eqb uuid ""); [discriminate|].
  intros H Hcode. apply Ok_injective in H. subst p.
  pose proof (poll_loop_spec status maxPolls 0 0) as Hspec.
  cbv zeta in Hspec. destruct Hspec as (_ & _ & _ & Hlast).
  destruct Hlast as [_ Hlast]; [discriminate|].
  destruct (signal_of (status (requests (poll_loop status maxPolls 0 0)))) as [c| |]
    eqn:Hsig.
  - rewrite Hlast in Hcode. injection Hcode as ->.
    destruct (signal_scanned _ _ Hsig) as (text & Hbody & Hwx).
    destruct (match_until_some _ _ _ _ Hwx) as [Hne Hall].
    repeat split; try assumption. eauto.
  - congruence.
  - destruct Hlast. congruence.
Qed.

Lemma pollWxCode_code_shape_witness : "abc" <> "".
Proof.
  apply (proj1 (pollWxCode_code_shape "061abc" (fun _ => scanned_answer)
                  (mkPolled (Some "abc") 1 0) "abc"
                  ltac:(vm_compute; reflexivity) ltac:(reflexivity))).
Defined.

Lemma poll_loop_all_failed (status : nat -> response) (remaining : nat) :
  (forall k, exists e, status k = Failed e) ->
  forall (polls : nat) (waited : Z),
    poll_loop status remaining polls waited
    = mkPolled None (polls + remaining) (waited + 2000 * Z.of_nat remaining).
Proof.
  intros Hdown. induction remaining as [|remaining IH]; intros polls waited.
  - cbn. f_equal; [lia | lia].
  - cbn [poll_loop]. destruct (Hdown (S polls)) as [e ->].
    rewrite IH. f_equal; lia.
Qed.

(** X10: with the network down, [pollWxCode] over [request] gives up by
    itself: when every status request fails or is answered with a status
    that is not [ok], it returns [null] after exactly 300 requests and 600
    seconds of waiting. *)
Theorem pollWxCode_network_down (uuid : string) (network : nat -> Http.fetch) :
  uuid <> "" ->
  (forall k url init,
     match network k url init with
     | Ok response => Http.ok response = false
     | Throw _ => True
     end) ->
  pollWxCode uuid (Http.poll_status network uuid) = Ok (mkPolled None 300 600000).
Proof.
  intros Huuid Hdown. unfold pollWxCode.
  replace (String.eqb uuid "") with false by (symmetry; now apply eqb_empty).
  rewrite poll_loop_all_failed; [reflexivity|].
  intros k. unfold Http.poll_status, Http.request.
  specialize (Hdown k (pollUrl uuid)
                (Http.requestOptions (Http.mkOptions (Some "GET") None None) None)).
  destruct (network k _ _) as [response|e]; cbn.
  - rewrite Hdown. cbn. eauto.
  - eauto.
Qed.

Lemma pollWxCode_network_down_witness :
  pollWxCode "061abc"
    (Http.poll_status
       (fun _ _ _ => Ok (Http.mkResponse false 503 "Service Unavailable" (Ok "")))
       "061abc")
  = Ok (mkPolled None 300 600000).
Proof.
  apply pollWxCode_network_down; [discriminate | intros k url init; reflexivity].
Defined.

End WechatShapeFacts.

(** ** The login loop: what it can end with, how long a turn takes, and what
    it leaves in the cache *)

Section LoginLoopFacts.
Import Token Login.













End LoginLoopFacts.

(** ** The scheduler with the status query among its calls *)

Section SchedulerStatusFacts.
Import Scheduler.

Lemma well_formed_status (nextDate : nat -> result (option Z)) (s : state) :
  (forall job, exists date, nextDate job = Ok (Some date)) ->
  snd (getSchedulerStatus nextDate s) = s.
Proof.
  intros Hnext. unfold getSchedulerStatus.
  destruct (checkinJob s) as [job|]; [|reflexivity].
  destruct (Hnext job) as [date ->]. reflexivity.
Qed.

Lemma well_formed_serve (nextDate : nat -> result (option Z)) (requests : list request) :
  (forall job, exists date, nextDate job = Ok (Some date)) ->
  forall s, well_formed s -> well_formed (serve nextDate requests s).
Proof.
  intros Hnext. induction requests as [|r requests IH]; intros s Hs; [exact Hs|].
  cbn [serve fold_left]. apply IH. destruct r; cbn [serve_one].
  - now apply well_formed_start.
  - now apply well_formed_stop.
  - now rewrite well_formed_status.
Qed.

(** X15: as long as the library answers every [nextDate()] with a date, any
    sequence of starts, stops and status queries leaves at most one job
    running, and the status tells the truth: [isRunning] is reported exactly
    when a job runs. *)
Theorem scheduler_status_tells_running
    (nextDate : nat -> result (option Z)) (requests : list request) :
  (forall job, exists date, nextDate job = Ok (Some date)) ->
  let s := serve nextDate requests initial in
  (running_jobs s <= 1)%nat
  /\ (isRunning (fst (getSchedulerStatus nextDate s)) = true <-> running_jobs s = 1%nat)
  /\ checkinJobStatus (fst (getSchedulerStatus nextDate s))
     = isRunning (fst (getSchedulerStatus nextDate s)).
Proof.
  intros Hnext s.
  assert (Hs : well_formed s)
    by (apply well_formed_serve; [exact Hnext | apply well_formed_initial]).
  split; [now apply well_formed_running_jobs|].
  destruct Hs as (idle & Hidle & [[Hnone Hjobs] | (j & Hjob & Hrun & Hjobs)]);
    unfold getSchedulerStatus, running_jobs; rewrite Hjobs.
  - rewrite Hnone. cbn [fst isRunning checkinJobStatus].
    rewrite idle_not_running by exact Hidle. cbn. split; [|reflexivity].
    split; [discriminate | lia].
  - rewrite Hjob. destruct (Hnext (length idle)) as [date ->].
    cbn [fst isRunning checkinJobStatus].
    rewrite filter_app, idle_not_running by exact Hidle.
    rewrite filter_cons, filter_nil.
    destruct (decide (running j = true)); [|congruence]. cbn. tauto.
Qed.

Lemma scheduler_status_tells_running_witness :
  let s := serve (fun _ => Ok (Some 1700000000000)) [DoStart; AskStatus; DoStart] initial in
  (running_jobs s <= 1)%nat.
Proof.
  intros s.
  apply (proj1 (scheduler_status_tells_running
                  (fun _ => Ok (Some 1700000000000)) [DoStart; AskStatus; DoStart]
                  ltac:(intros job; exists 1700000000000; reflexivity))).
Defined.

(** A job runs that [checkinJob] does not hold. *)
Lemma orphan_start (s : state) (i : nat) (j : CronJob) :
  jobs s !! i = Some j -> checkinJob s <> Some i ->
  jobs (startScheduler s) !! i = Some j /\ checkinJob (startScheduler s) <> Some i.
Proof.
  intros Hi Hne. unfold startScheduler.
  destruct (checkinJob s) as [job|] eqn:Hjob; [split; congruence|].
  cbv zeta. cbn [jobs checkinJob]. pose proof (lookup_lt_Some _ _ _ Hi) as Hlt.
  split.
  - rewrite list_lookup_alter_ne by lia. now rewrite lookup_app_l by lia.
  - intros H. injection H as H. lia.
Qed.

Lemma orphan_stop (s : state) (i : nat) (j : CronJob) :
  jobs s !! i = Some j -> checkinJob s <> Some i ->
  jobs (stopScheduler s) !! i = Some j /\ checkinJob (stopScheduler s) <> Some i.
Proof.
  intros Hi Hne. unfold stopScheduler.
  destruct (checkinJob s) as [job|] eqn:Hjob; [|split; congruence].
  cbn [jobs checkinJob]. split; [|discriminate].
  rewrite list_lookup_alter_ne by congruence. exact Hi.
Qed.

Lemma orphan_status (nextDate : nat -> result (option Z)) (s : state)
    (i : nat) (j : CronJob) :
  jobs s !! i = Some j -> checkinJob s <> Some i ->
  jobs (snd (getSchedulerStatus nextDate s)) !! i = Some j
  /\ checkinJob (snd (getSchedulerStatus nextDate s)) <> Some i.
Proof.
  intros Hi Hne. unfold getSchedulerStatus.
  destruct (checkinJob s) as [job|] eqn:Hjob; [|cbn [snd]; split; congruence].
  destruct (nextDate job) as [[date|]|]; cbn [snd jobs checkinJob];
    (split; [assumption | congruence]).
Qed.

Lemma orphan_serve (nextDate : nat -> result (option Z)) (requests : list request)
    (i : nat) (j : CronJob) :
  forall s,
    jobs s !! i = Some j -> checkinJob s <> Some i ->
    jobs (serve nextDate requests s) !! i = Some j.
Proof.
  induction requests as [|r requests IH]; intros s Hi Hne; [exact Hi|].
  cbn [serve fold_left].
  destruct r; cbn [serve_one].
  - destruct (orphan_start s i j Hi Hne). now apply IH.
  - destruct (orphan_stop s i j Hi Hne). now apply IH.
  - destruct (orphan_status nextDate s i j Hi Hne). now apply IH.
Qed.

Lemma running_job_counts (s : state) (i : nat) (j : CronJob) :
  jobs s !! i = Some j -> running j = true -> (1 <= running_jobs s)%nat.
Proof.
  intros Hi Hrun. unfold running_jobs.
  assert (j ∈ filter (fun j => running j = true) (jobs s)) as Hin.
  { apply list_elem_of_filter. split; [exact Hrun|].
    exact (list_elem_of_lookup_2 _ _ _ Hi). }
  destruct (filter _ (jobs s)); [inversion Hin | cbn; lia].
Qed.

(** X16: a status query that gets no date from the library forgets the job
    without stopping it.  The status then says that nothing runs while the
    job still does; from then on no sequence of starts, stops and status
    queries stops it; and the next start sets a second job running beside
    it. *)
Theorem scheduler_status_failure_orphans_job
    (nextDate : nat -> result (option Z)) (s : state) (job : nat) :
  well_formed s ->
  checkinJob s = Some job ->
  (forall date, nextDate job <> Ok (Some date)) ->
  let reported := getSchedulerStatus nextDate s in
  isRunning (fst reported) = false
  /\ running_jobs (snd reported) = 1%nat
  /\ running_jobs (startScheduler (snd reported)) = 2%nat
  /\ forall nextDate' requests,
       (1 <= running_jobs (serve nextDate' requests (snd reported)))%nat.
Proof.
  intros (idle & Hidle & [[Hnone _] | (j & Hjob & Hrun & Hjobs)]) Hheld Hfail;
    [congruence|].
  assert (getSchedulerStatus nextDate s
          = (mkStatus false false None, mkState (jobs s) None)) as ->.
  { unfold getSchedulerStatus. rewrite Hheld.
    destruct (nextDate job) as [[date|]|] eqn:Hd; try reflexivity.
    now destruct (Hfail date). }
  cbn zeta. cbn [fst snd].
  assert (Hone : filter (fun j => running j = true) (idle ++ [j])%list = [j]).
  { rewrite filter_app, idle_not_running by exact Hidle.
    rewrite filter_cons, filter_nil. now destruct (decide (running j = true)). }
  repeat split.
  - unfold running_jobs. cbn [jobs]. now rewrite Hjobs, Hone.
  - unfold running_jobs, startScheduler. cbv zeta. cbn [jobs checkinJob].
    replace (length (jobs s)) with (length (jobs s) + 0)%nat by lia.
    rewrite alter_app_r. cbn [alter list_alter].
    rewrite filter_app, Hjobs, Hone. reflexivity.
  - intros nextDate' requests.
    apply (running_job_counts _ (length idle) j); [|exact Hrun].
    apply orphan_serve; cbn [jobs checkinJob]; [|discriminate].
    rewrite Hjobs. replace (length idle) with (length idle + 0)%nat by lia.
    now rewrite lookup_app_r, Nat.add_comm, Nat.add_sub by lia.
Qed.

Lemma scheduler_status_failure_orphans_job_witness :
  running_jobs
    (startScheduler
       (snd (getSchedulerStatus (fun _ => Throw (Native "invalid date"))
               (startScheduler initial)))) = 2%nat.
Proof.
  apply (proj1 (proj2 (proj2
           (scheduler_status_failure_orphans_job
              (fun _ => Throw (Native "invalid date")) (startScheduler initial) 0%nat
              ltac:(apply well_formed_start, well_formed_initial)
              ltac:(reflexivity)
              ltac:(intros date; discriminate))))).
Defined.

End SchedulerStatusFacts.

(** ** The logger: the entries kept in memory *)

Section LoggerFacts.
Import Logger.

Lemma log_drop (entry : LogEntry) (logs : list LogEntry) :
  (length logs <= maxLogs)%nat ->
  log entry logs = drop (length logs + 1 - maxLogs) (logs ++ [entry])%list.
Proof.
  intros Hlen. unfold log. rewrite length_app. cbn [length].
  destruct (Nat.ltb_spec maxLogs (length logs + 1)) as [Hlt | Hge].
  - replace (length logs + 1 - maxLogs)%nat with 1%nat by lia.
    now destruct (logs ++ [entry])%list.
  - now replace (length logs + 1 - maxLogs)%nat with 0%nat by lia.
Qed.

Lemma log_all_snoc (entries : list LogEntry) (entry : LogEntry) (logs : list LogEntry) :
  log_all (entries ++ [entry]) logs = log entry (log_all entries logs).
Proof. unfold log_all. now rewrite fold_left_app. Qed.

(** X17: the logger keeps the last 1000 entries: after any run of [log]
    calls on a buffer within the limit, [getLogs()] gives what was logged, in
    order, without its oldest entries beyond 1000; after [clearLogs()] these
    are the last 1000 of the entries logged since. *)
Theorem logger_keeps_most_recent (entries logs : list LogEntry) :
  (length logs <= 1000)%nat ->
  getLogs None (log_all entries logs)
  = drop (length logs + length entries - 1000) (logs ++ entries)%list
  /\ length (getLogs None (log_all entries logs))
     = Nat.min 1000 (length logs + length entries)
  /\ getLogs None (log_all entries (clearLogs logs))
     = drop (length entries - 1000) entries.
Proof.
  assert (Hdrop : forall logs : list LogEntry,
            (length logs <= 1000)%nat ->
            log_all entries logs
            = drop (length logs + length entries - maxLogs) (logs ++ entries)%list).
  { clear logs. intros logs Hlen.
    induction entries as [|entry entries IH] using rev_ind.
    - cbn. rewrite app_nil_r. unfold maxLogs.
      now replace (length logs + 0 - 1000)%nat with 0%nat by lia.
    - rewrite log_all_snoc, IH. rewrite log_drop.
      2:{ rewrite length_drop, length_app. unfold maxLogs. lia. }
      rewrite length_drop, !length_app. cbn [length].
      rewrite <- drop_app_le by (rewrite length_app; lia).
      rewrite drop_drop, <- app_assoc. f_equal. unfold maxLogs. lia. }
  intros Hlen. cbn [getLogs]. repeat split.
  - now apply Hdrop.
  - rewrite Hdrop, length_drop, length_app by exact Hlen. unfold maxLogs. lia.
  - unfold clearLogs. rewrite Hdrop by (cbn; lia). reflexivity.
Qed.

Lemma logger_keeps_most_recent_witness :
  let e := mkEntry info "started" 0 in
  getLogs None (log_all [e; e; e] [e])
  = drop (length [e] + length [e; e; e] - 1000) ([e] ++ [e; e; e])%list.
Proof.
  intros e.
  apply (proj1 (logger_keeps_most_recent [e; e; e] [e] ltac:(cbn; lia))).
Defined.

End LoggerFacts.

(** ** The configuration, and the notifier under it *)

Section ConfigFacts.
Import Config.

Lemma hasEmailConfig_true (c : EnvConfig) :
  hasEmailConfig c = true ->
  exists host user pass,
    EMAIL_HOST c = Some host /\ host <> ""
    /\ EMAIL_USER c = Some user /\ user <> ""
    /\ EMAIL_PASS c = Some pass /\ pass <> "".
Proof.
  unfold hasEmailConfig. intros H.
  apply andb_prop in H as [H Hp]. apply andb_prop in H as [Hh Hu].
  apply truthy_string_spec in Hh as (host & Hh & Hhne).
  apply truthy_string_spec in Hu as (user & Hu & Hune).
  apply truthy_string_spec in Hp as (pass & Hp & Hpne).
  exists host, user, pass. auto 10.
Qed.

(** X18: the transport settings [getEmailConfig] gives.  Host, user and
    password are the configured ones and none is empty; the port is the
    configured one, or 587 when none is configured or it is 0, so it is never
    0; and [secure] is set exactly for port 465. *)
Theorem getEmailConfig_settings (c : EnvConfig) (cfg : Email.EmailConfig) :
  getEmailConfig c = Ok cfg ->
  (EMAIL_HOST c = Some (Email.host cfg) /\ Email.host cfg <> "")
  /\ (EMAIL_USER c = Some (Email.user cfg) /\ Email.user cfg <> "")
  /\ (EMAIL_PASS c = Some (Email.pass cfg) /\ Email.pass cfg <> "")
  /\ Email.port cfg <> 0
  /\ (EMAIL_PORT c = Some (Email.port cfg)
      \/ (Email.port cfg = 587 /\ (EMAIL_PORT c = None \/ EMAIL_PORT c = Some 0)))
  /\ (Email.secure cfg = true <-> Email.port cfg = 465).
Proof.
  unfold getEmailConfig.
  destruct (hasEmailConfig c) eqn:Hcfg; cbn [negb]; [|discriminate].
  destruct (hasEmailConfig_true c Hcfg)
    as (host & user & pass & Hh & Hhne & Hu & Hune & Hp & Hpne).
  intros H. injection H as <-. cbn [Email.host Email.user Email.pass Email.port Email.secure].
  rewrite Hh, Hu, Hp. cbn [default].
  repeat split; try assumption.
  - destruct (EMAIL_PORT c) as [p|]; cbn; [|lia].
    destruct (Z.eqb_spec p 0); cbn; lia.
  - destruct (EMAIL_PORT c) as [p|]; cbn; [|auto].
    destruct (Z.eqb_spec p 0); cbn; subst; auto.
  - destruct (EMAIL_PORT c) as [p|]; cbn; [|discriminate].
    intros H. apply Z.eqb_eq in H. subst. reflexivity.
  - destruct (EMAIL_PORT c) as [p|]; cbn.
    + destruct (Z.eqb_spec p 0); cbn; [lia|]. intros ->. reflexivity.
    + lia.
Qed.

Lemma getEmailConfig_settings_witness :
  let c := mkEnvConfig "secret" "cache.example:6379" (Some "smtp.example")
             (Some 465) (Some "bot@example.org") (Some "pw") None None None in
  let cfg := Email.mkConfig "smtp.example" 465 true "bot@example.org" "pw" in
  Email.secure cfg = true <-> Email.port cfg = 465.
Proof.
  intros c cfg.
  apply (getEmailConfig_settings c cfg). reflexivity.
Defined.

(** X19: a configuration that [validate] accepts has its two Redis settings,
    and mail is enabled under it exactly when a recipient is configured;
    and whenever mail is enabled, [getEmailConfig] does not raise. *)
Theorem validate_settles_email (c : EnvConfig) :
  (validate c = Ok tt ->
   REDIS_TOKEN c <> "" /\ REDIS_ADDR c <> ""
   /\ email_enabled c = hasEmailRecipient c)
  /\ (email_enabled c = true -> exists cfg, getEmailConfig c = Ok cfg).
Proof.
  split.
  - unfold validate, email_enabled, hasEmailRecipient.
    destruct (String.eqb (REDIS_TOKEN c) "") eqn:Ht; cbn [orb]; [discriminate|].
    destruct (String.eqb (REDIS_ADDR c) "") eqn:Ha; [discriminate|].
    apply eqb_empty in Ht. apply eqb_empty in Ha.
    destruct (truthy_string (EMAIL_TO c)), (hasEmailConfig c); cbn;
      intros H; try discriminate; auto.
  - unfold email_enabled, getEmailConfig. intros H.
    apply andb_prop in H as [-> _]. cbn [negb]. eauto.
Qed.

Lemma validate_settles_email_witness :
  let c := mkEnvConfig "secret" "cache.example:6379" (Some "smtp.example")
             None (Some "bot@example.org") (Some "pw") None None None in
  REDIS_TOKEN c <> "" /\ REDIS_ADDR c <> ""
  /\ email_enabled c = hasEmailRecipient c.
Proof.
  intros c.
  apply (proj1 (validate_settles_email c)). reflexivity.
Defined.

(** X20: under a configuration, no notification is sent to anyone but the
    sending account itself: the transport is never handed a message whose
    recipient is not [EMAIL_USER].  [EMAIL_TO] switches the mail on and is
    not the address written to. *)
Theorem notifications_go_to_the_sender
    (c : EnvConfig)
    (createTransport : Email.EmailConfig -> result unit)
    (writeFile : string -> list Byte.byte -> result unit)
    (sendMail sendMail' : Email.EmailOptions -> result string)
    (unlink : string -> result unit) :
  (forall options,
     Email.to options = default "" (EMAIL_USER c) -> sendMail options = sendMail' options) ->
  let w := mail_world c createTransport writeFile sendMail unlink in
  let w' := mail_world c createTransport writeFile sendMail' unlink in
  (forall answer, Email.sendCheckinResult w answer = Email.sendCheckinResult w' answer)
  /\ (forall reauthUrl isExpiringSoon,
        Email.sendTokenExpiredEmail w reauthUrl isExpiringSoon
        = Email.sendTokenExpiredEmail w' reauthUrl isExpiringSoon)
  /\ (forall uuid qrBuffer,
        Email.sendEmailWithQRCode w uuid qrBuffer
        = Email.sendEmailWithQRCode w' uuid qrBuffer).
Proof.
  intros Hsame w w'.
  assert (Huser : forall cfg, getEmailConfig c = Ok cfg ->
                              Email.user cfg = default "" (EMAIL_USER c)).
  { unfold getEmailConfig. intros cfg. destruct (negb _); [discriminate|].
    intros H. injection H as <-. reflexivity. }
  repeat split.
  - intros answer. unfold Email.sendCheckinResult, Email.createMailSender, w, w', mail_world.
    cbn [Email.EMAIL_ENABLED Email.getEmailConfig Email.createTransport Email.sendMail].
    destruct (email_enabled c); cbn [negb]; [|reflexivity].
    destruct (getEmailConfig c) as [cfg|e] eqn:Hcfg; cbn; [|reflexivity].
    destruct (createTransport cfg); cbn; [|reflexivity].
    rewrite Hsame; [reflexivity|]. cbn [Email.to]. now apply Huser.
  - intros reauthUrl isExpiringSoon.
    unfold Email.sendTokenExpiredEmail, Email.createMailSender, w, w', mail_world.
    cbn [Email.EMAIL_ENABLED Email.getEmailConfig Email.createTransport Email.sendMail].
    destruct (email_enabled c); cbn [negb]; [|reflexivity].
    destruct (getEmailConfig c) as [cfg|e] eqn:Hcfg; cbn; [|reflexivity].
    destruct (createTransport cfg); cbn; [|reflexivity].
    rewrite Hsame; [reflexivity|]. cbn [Email.to]. now apply Huser.
  - intros uuid qrBuffer.
    unfold Email.sendEmailWithQRCode, Email.createMailSender, w, w', mail_world.
    cbn [Email.EMAIL_ENABLED Email.getEmailConfig Email.createTransport Email.sendMail
         Email.writeFile Email.unlink].
    destruct (email_enabled c); cbn [negb]; [|reflexivity].
    destruct (blank uuid); [reflexivity|].
    destruct (length qrBuffer =? 0)%nat; [reflexivity|].
    destruct (getEmailConfig c) as [cfg|e] eqn:Hcfg; cbn; [|reflexivity].
    destruct (createTransport cfg); cbn; [|reflexivity].
    destruct (writeFile _ _); cbn; [|reflexivity].
    rewrite Hsame; [reflexivity|]. cbn [Email.to]. now apply Huser.
Qed.

Lemma notifications_go_to_the_sender_witness :
  let c := mkEnvConfig "secret" "cache.example:6379" (Some "smtp.example")
             None (Some "bot@example.org") (Some "pw") (Some "me@example.org")
             None None in
  let sendMail := fun o : Email.EmailOptions =>
    if String.eqb (Email.to o) "me@example.org" then Ok "delivered"
    else Throw (Native "rejected") in
  let sendMail' := fun _ : Email.EmailOptions => @Throw string (Native "rejected") in
  Email.sendTokenExpiredEmail
    (mail_world c (fun _ => Ok tt) (fun _ _ => Ok tt) sendMail (fun _ => Ok tt))
    None false
  = Email.sendTokenExpiredEmail
      (mail_world c (fun _ => Ok tt) (fun _ _ => Ok tt) sendMail' (fun _ => Ok tt))
      None false.
Proof.
  intros c sendMail sendMail'.
  apply (proj1 (proj2
           (notifications_go_to_the_sender c (fun _ => Ok tt) (fun _ _ => Ok tt)
              sendMail sendMail' (fun _ => Ok tt)
              ltac:(intros o Ho; unfold sendMail, sendMail'; rewrite Ho; reflexivity)))).
Defined.

End ConfigFacts.

(** ** The callers: the scheduled job, the endpoint and the command line *)

Section CallerFacts.
Import Caller.







Lemma sendCheckinResult_returns (mail : Email.world) (answer : Json.json) :
  fst (Email.sendCheckinResult mail answer) = Ok tt.
Proof.
  unfold Email.sendCheckinResult.
  destruct (negb _); [reflexivity|].
  match goal with |- context [match ?b with Ok _ => _ | Throw _ => _ end] => destruct b end;
    reflexivity.
Qed.









(** X24: the mail cannot change how the command line ends: whatever the
    configuration, the file system and the mail transport do, [main] ends
    the same way. *)
Theorem main_ends_whatever_the_mail
    (USER_NAME : option string) (script : list Login.attempt) (w : Login.world)
    (mail mail' : Email.world) (info : Checkin.info_api) (submit : Checkin.api) :
  main USER_NAME script w mail info submit = main USER_NAME script w mail' info submit.
Proof.
  unfold main.
  destruct USER_NAME as [userName|]; [|reflexivity].
  destruct (blank userName); [reflexivity|].
  destruct (Login.get_ensureLoggedIn script w) as [[[t|e|] w']|]; try reflexivity.
  destruct (if truthy_number (Token.expire t) then _ else _) as [[]|];
    cbn [mbind result_bind bind]; [|reflexivity].
  destruct (Token.getToken t) as [tok|]; cbn [mbind result_bind bind]; [|reflexivity].
  destruct (Checkin.getCheckInInfo info tok); cbn [mbind result_bind bind]; [|reflexivity].
  destruct (Checkin.submitCheckIn submit tok (trim userName) None) as [answer|];
    cbn [mbind result_bind bind]; [|reflexivity].
  now rewrite !sendCheckinResult_returns.
Qed.



End CallerFacts.
